(** * gpsd libgps/hex.c: binary/text transcoding helpers

    A shallow embedding of [src/digital_drone/gpsd/libgps/hex.c]
    ([gpsd_packetdump], [gps_hexdump], [hex2bin], [gps_hexpack],
    [hex_escapes], [gps_visibilize]) and the properties its
    specification states about it.

    Conventions of the embedding.
    - A byte in memory is a [Z] in [0, 256).  Plain [char] is signed
      (as on x86): [char_to_int] is the integer promotion of a byte read
      through a [char *].
    - [size_t] and [ssize_t] are 64 bits wide (LP64); their wrap-around
      is written out with [size_t] and [ssize_t].
    - A buffer with a declared capacity is the [list Z] of its cells.
      A load or a store outside the cells is undefined behaviour in C;
      here it ends the run with a [fault] that records the index.
    - A NUL-terminated string argument is the [list Z] of the bytes
      starting at the pointer: the string ends at the first 0 byte, and
      the end of the list stands for the terminator.
    - [MAX_PACKET_LENGTH] (include/gpsd.h) and [BUFSIZ] (stdio.h) are
      not defined in hex.c; they are parameters of the development.
    - [isprint], [isspace], [strnlen], [memset] and [snprintf] are the
      C library's, in the "C" locale. *)

From Stdlib Require Import ZArith Lia String Ascii.
From stdpp Require Import base numbers list.

Local Open Scope Z_scope.

(** ** Machine model *)

Inductive fault : Type :=
  | BadLoad (i : Z)
  | BadStore (i : Z).

Inductive outcome (A : Type) : Type :=
  | Done (a : A)
  | Fault (f : fault).

Arguments Done {A} a.
Arguments Fault {A} f.

#[global] Instance outcome_bind : MBind outcome := fun A B k m =>
  match m with
  | Done a => k a
  | Fault f => Fault f
  end.

Definition size_t (x : Z) : Z := x mod 2 ^ 64.

Definition ssize_t (x : Z) : Z := (x + 2 ^ 63) mod 2 ^ 64 - 2 ^ 63.

Definition uint (x : Z) : Z := x mod 2 ^ 32.

Definition uchar (x : Z) : Z := x mod 256.

(** No object is larger than [PTRDIFF_MAX] bytes. *)
Definition PTRDIFF_MAX : Z := 2 ^ 63 - 1.

Definition char_to_int (b : Z) : Z := if 128 <=? b then b - 256 else b.

Definition lenZ (l : list Z) : Z := Z.of_nat (length l).

Definition load (buf : list Z) (i : Z) : outcome Z :=
  if decide (0 <= i) then
    match buf !! Z.to_nat i with
    | Some b => Done b
    | None => Fault (BadLoad i)
    end
  else Fault (BadLoad i).

Definition store (buf : list Z) (i : Z) (v : Z) : outcome (list Z) :=
  if decide (0 <= i < lenZ buf) then Done (<[Z.to_nat i := v]> buf)
  else Fault (BadStore i).

(** The byte at offset [i] of a NUL-terminated string. *)
Definition char_at (s : list Z) (i : nat) : Z := default 0 (s !! i).

(** The text a NUL-terminated buffer holds: the bytes before the first 0. *)
Fixpoint cstring (buf : list Z) : list Z :=
  match buf with
  | [] => []
  | c :: rest => if c =? 0 then [] else c :: cstring rest
  end.

Definition bytes_of (s : string) : list Z :=
  map (fun a => Z.of_N (N_of_ascii a)) (list_ascii_of_string s).

Definition ch (a : ascii) : Z := Z.of_N (N_of_ascii a).

(** ** <ctype.h>, "C" locale *)

Definition isprint (c : Z) : bool := (32 <=? c) && (c <=? 126).

Definition isspace (c : Z) : bool := (c =? 32) || ((9 <=? c) && (c <=? 13)).

(** ** <string.h>, <stdio.h> *)

Definition strnlen (s : list Z) (maxlen : Z) : Z := Z.min (lenZ (cstring s)) maxlen.

Fixpoint memset (n : nat) (buf : list Z) (pos : Z) (v : Z) : outcome (list Z) :=
  match n with
  | O => Done buf
  | S n' => buf' ← store buf pos v; memset n' buf' (pos + 1) v
  end.

Fixpoint store_bytes (buf : list Z) (pos : Z) (bs : list Z) : outcome (list Z) :=
  match bs with
  | [] => Done buf
  | b :: bs' => buf' ← store buf pos b; store_bytes buf' (pos + 1) bs'
  end.

(** [snprintf(&buf[pos], size, fmt, ...)] where the formatted text is
    [text]: at most [size - 1] bytes of it are stored, then a NUL; the
    length of the whole text is returned. *)
Definition snprintf (buf : list Z) (pos size : Z) (text : list Z) : outcome (Z * list Z) :=
  if size =? 0 then Done (lenZ text, buf)
  else buf' ← store_bytes buf pos (take (Z.to_nat (size - 1)) text ++ [0]);
       Done (lenZ text, buf').

(** ** hex.c *)

Definition hexchar : list Z := bytes_of "0123456789abcdef".

Definition hexchar_at (d : Z) : Z := char_at hexchar (Z.to_nat d).

Section Hex.

Variable MAX_PACKET_LENGTH : Z.
Variable BUFSIZ : Z.

(** The loop of [gps_hexdump].  [n] is [len - i], so that the test
    [i < len] is [n <> 0]. *)
Fixpoint hexdump_loop (n : nat) (scbuflen : Z) (ibuf : list Z) (i j : Z)
    (scbuf : list Z) : outcome (Z * list Z) :=
  match n with
  | O => Done (j, scbuf)
  | S n' =>
      if j <? size_t (scbuflen - 3) then
        c ← load ibuf i;
        scbuf1 ← store scbuf j
                    (hexchar_at (Z.shiftr (Z.land (char_to_int c) 240) 4));
        scbuf2 ← store scbuf1 (size_t (j + 1))
                    (hexchar_at (Z.land (char_to_int c) 15));
        hexdump_loop n' scbuflen ibuf (i + 1) (size_t (j + 2)) scbuf2
      else Done (j, scbuf)
  end.

(** [gps_hexdump]; [binbuf = None] is the NULL pointer.  The result is
    [scbuf], the buffer the function returns. *)
Definition gps_hexdump (scbuf : list Z) (scbuflen : Z)
    (binbuf : option (list Z)) (binbuflen : Z) : outcome (list Z) :=
  let len := size_t (if binbuflen >? size_t MAX_PACKET_LENGTH
                     then MAX_PACKET_LENGTH else binbuflen) in
  match binbuf with
  | None => store scbuf 0 0
  | Some ibuf =>
      if binbuflen =? 0 then store scbuf 0 0
      else
        '(j, scbuf1) ← hexdump_loop (Z.to_nat len) scbuflen ibuf 0 0 scbuf;
        store scbuf1 j 0
  end.

(** The scan of [gpsd_packetdump]; [n] is [binbuf + binbuflen - cp]. *)
Fixpoint packetdump_scan (n : nat) (binbuf : list Z) (cp : Z) : outcome bool :=
  match n with
  | O => Done true
  | S n' =>
      c ← load binbuf cp;
      if negb (isprint c) && negb (isspace c) then Done false
      else packetdump_scan n' binbuf (cp + 1)
  end.

(** What [gpsd_packetdump] returns: the literal [""], [binbuf] itself,
    or [scbuf] as [gps_hexdump] left it. *)
Inductive dump : Type :=
  | DumpLiteral
  | DumpBinbuf
  | DumpScbuf (scbuf : list Z).

Definition gpsd_packetdump (scbuf : list Z) (scbuflen : Z)
    (binbuf : option (list Z)) (binbuflen : Z) : outcome dump :=
  match binbuf with
  | None => Done DumpLiteral
  | Some b =>
      printable ← packetdump_scan (Z.to_nat binbuflen) b 0;
      if printable : bool then Done DumpBinbuf
      else scbuf' ← gps_hexdump scbuf scbuflen binbuf binbuflen;
           Done (DumpScbuf scbuf')
  end.

(** The text the caller of [gpsd_packetdump] reads: the function
    returns a bare [const char *], so whichever buffer comes back is
    read as a NUL-terminated string; [binbuflen] is not part of what
    the caller gets. *)
Definition dump_text (binbuf : option (list Z)) (binbuflen : Z) (d : dump) : list Z :=
  match d with
  | DumpLiteral => []
  | DumpBinbuf => match binbuf with Some b => cstring b | None => [] end
  | DumpScbuf scbuf => cstring scbuf
  end.

(** One arm of the ladder of [hex2bin]: the value of a hex digit, or
    [None] where the source returns -1. *)
Definition hex2bin_digit (a : Z) : option Z :=
  if (a >=? ch "a") && (a <=? ch "f") then Some (a + 10 - ch "a")
  else if (a >=? ch "A") && (a <=? ch "F") then Some (a + 10 - ch "A")
  else if (a >=? ch "0") && (a <=? ch "9") then Some (a - ch "0")
  else None.

(** [hex2bin(s + off)]. *)
Definition hex2bin (s : list Z) (off : nat) : Z :=
  let a := Z.land (char_to_int (char_at s off)) 255 in
  let b := Z.land (char_to_int (char_at s (off + 1))) 255 in
  match hex2bin_digit a with
  | None => -1
  | Some a' =>
      match hex2bin_digit b with
      | None => -1
      | Some b' => Z.shiftl a' 4 + b'
      end
  end.

(** The loop of [gps_hexpack]; [n] is [j - i].  The result is [Some i]
    with the final [i] when the loop runs to its end, and [None] when
    [hex2bin] fails and the function returns -1. *)
Fixpoint hexpack_loop (n : nat) (src : list Z) (i : Z) (dst : list Z)
    : outcome (option Z * list Z) :=
  match n with
  | O => Done (Some i, dst)
  | S n' =>
      let k := hex2bin src (Z.to_nat (i * 2)) in
      if -1 =? k then Done (None, dst)
      else
        dst1 ← store dst i (uchar (Z.land k 255));
        hexpack_loop n' src (i + 1) dst1
  end.

(** [gps_hexpack]: the value returned and the destination as it is left. *)
Definition gps_hexpack (src : list Z) (dst : list Z) (len : Z)
    : outcome (Z * list Z) :=
  let j := ssize_t (strnlen src (size_t BUFSIZ) / 2) in
  if (1 >? j) || (size_t j >? len) then Done (-2, dst)
  else
    '(r, dst1) ← hexpack_loop (Z.to_nat j) src 0 dst;
    match r with
    | None => Done (-1, dst1)
    | Some i =>
        dst2 ← memset (Z.to_nat (size_t (len - i))) dst1 i 0;
        Done (j, dst2)
    end.

End Hex.

(** A [switch] over character constants: the first case whose label is
    [c], or [None] for [default]. *)
Fixpoint switch {A : Type} (c : Z) (cases : list (Z * A)) : option A :=
  match cases with
  | [] => None
  | (label, a) :: rest => if c =? label then Some a else switch c rest
  end.

(** The one-character escapes of [hex_escapes] and the byte each stores. *)
Definition escape_cases : list (Z * Z) :=
  [ (ch "b", 8); (ch "e", 0x1b); (ch "f", 12); (ch "n", 10);
    (ch "r", 13); (ch "t", 13); (ch "v", 11); (ch "\", ch "\") ].

(** The first digit after [\x]. *)
Definition high_nibble_cases : list (Z * Z) :=
  [ (ch "0", 0x00); (ch "1", 0x10); (ch "2", 0x20); (ch "3", 0x30);
    (ch "4", 0x40); (ch "5", 0x50); (ch "6", 0x60); (ch "7", 0x70);
    (ch "8", 0x80); (ch "9", 0x90);
    (ch "A", 0xa0); (ch "a", 0xa0); (ch "B", 0xb0); (ch "b", 0xb0);
    (ch "C", 0xc0); (ch "c", 0xc0); (ch "D", 0xd0); (ch "d", 0xd0);
    (ch "E", 0xe0); (ch "e", 0xe0); (ch "F", 0xf0); (ch "f", 0xf0) ].

(** The second digit after [\x]. *)
Definition low_nibble_cases : list (Z * Z) :=
  [ (ch "0", 0x00); (ch "1", 0x01); (ch "2", 0x02); (ch "3", 0x03);
    (ch "4", 0x04); (ch "5", 0x05); (ch "6", 0x06); (ch "7", 0x07);
    (ch "8", 0x08); (ch "9", 0x09);
    (ch "A", 0x0a); (ch "a", 0x0a); (ch "B", 0x0b); (ch "b", 0x0b);
    (ch "C", 0x0c); (ch "c", 0x0c); (ch "D", 0x0d); (ch "d", 0x0d);
    (ch "E", 0x0e); (ch "e", 0x0e); (ch "F", 0x0f); (ch "f", 0x0f) ].

(** The loop of [hex_escapes].  [cooked] holds the bytes stored so far,
    [cooked[0 .. cookend)]; the result is the value returned and those
    bytes.  Where [*++raw] reads the terminator the matching [switch]
    takes its [default]. *)
Fixpoint hex_escapes_loop (cooked : list Z) (raw : list Z) : Z * list Z :=
  match raw with
  | [] => (lenZ cooked, cooked)
  | c :: raw1 =>
      if c =? 0 then (lenZ cooked, cooked)
      else if negb (c =? ch "\") then hex_escapes_loop (cooked ++ [c]) raw1
      else
        match raw1 with
        | [] => (-3, cooked)
        | e :: raw2 =>
            if e =? ch "x" then
              match raw2 with
              | [] => (-1, cooked)
              | h :: raw3 =>
                  match switch h high_nibble_cases with
                  | None => (-1, cooked)
                  | Some hi =>
                      match raw3 with
                      | [] => (-2, cooked)
                      | l :: raw4 =>
                          match switch l low_nibble_cases with
                          | None => (-2, cooked)
                          | Some lo =>
                              hex_escapes_loop (cooked ++ [uchar (hi + lo)]) raw4
                          end
                      end
                  end
              end
            else
              match switch e escape_cases with
              | None => (-3, cooked)
              | Some b => hex_escapes_loop (cooked ++ [b]) raw2
              end
        end
  end.

Definition hex_escapes (raw : list Z) : Z * list Z := hex_escapes_loop [] raw.

(** The text of [printf("%02x", v)] for [v] below 256. *)
Definition fmt_02x (v : Z) : list Z := [hexchar_at (v / 16); hexchar_at (v mod 16)].

(** The loop of [gps_visibilize]; [n] is [inbuf + inlen - sp]. *)
Fixpoint visibilize_loop (n : nat) (outlen : Z) (inbuf : list Z) (sp next : Z)
    (outbuf : list Z) : outcome (list Z) :=
  match n with
  | O => Done outbuf
  | S n' =>
      if size_t (next + 6) <? outlen then
        c ← load inbuf sp;
        '(ret, outbuf1) ←
          (if isprint (uchar (char_to_int c))
           then snprintf outbuf next 2 [uchar (char_to_int c)]
           else snprintf outbuf next 6
                  (bytes_of "\x" ++ fmt_02x (Z.land 255 (uint (char_to_int c)))));
        if 1 >? ret then Done outbuf1
        else visibilize_loop n' outlen inbuf (sp + 1) (size_t (next + ret)) outbuf1
      else Done outbuf
  end.

Definition gps_visibilize (outbuf : list Z) (outlen : Z) (inbuf : list Z) (inlen : Z)
    : outcome (list Z) :=
  outbuf0 ← store outbuf 0 0;
  visibilize_loop (Z.to_nat inlen) outlen inbuf 0 0 outbuf0.


(** ** Vocabulary of the properties *)

Definition is_bytes (l : list Z) : Prop := Forall (fun b => 0 <= b < 256) l.

(** A run stays within its destination: it does not end in a store
    outside the declared cells. *)
Definition in_bounds {A : Type} (r : outcome A) : Prop :=
  forall i, r <> Fault (BadStore i).

(** A character of [0-9a-fA-F]. *)
Definition isxdigit (c : Z) : bool :=
  ((ch "0" <=? c) && (c <=? ch "9"))
  || ((ch "a" <=? c) && (c <=? ch "f"))
  || ((ch "A" <=? c) && (c <=? ch "F")).

(** The characters [hex_escapes] accepts after a backslash. *)
Definition escape_letters : list Z := bytes_of "befnrtvx\".

(** A raw prefix after which [hex_escapes] is between two items: it
    holds no NUL and decodes without error. *)
Definition decodes (pre : list Z) : Prop :=
  Forall (fun c => c <> 0) pre /\ 0 <= (hex_escapes pre).1.

(** [BUFSIZ] is an [int] constant of at least 256 (ISO C, <stdio.h>). *)
Definition valid_BUFSIZ (B : Z) : Prop := 256 <= B < 2 ^ 31.

(** The value of a hex digit. *)
Definition digit_value (c : Z) : Z :=
  if (ch "a" <=? c) && (c <=? ch "f") then c - ch "a" + 10
  else if (ch "A" <=? c) && (c <=? ch "F") then c - ch "A" + 10
  else c - ch "0".

(** Pair [k] of a hex string: the characters at [2k] and [2k+1]. *)
Definition pair_ok (src : list Z) (k : nat) : bool :=
  isxdigit (char_at src (2 * k)) && isxdigit (char_at src (2 * k + 1)).

Definition pair_value (src : list Z) (k : nat) : Z :=
  16 * digit_value (char_at src (2 * k)) + digit_value (char_at src (2 * k + 1)).

(** How many of the [n] pairs from pair [k] on are well formed, up to
    the first that is not. *)
Fixpoint good_pairs (n : nat) (src : list Z) (k : nat) : nat :=
  match n with
  | O => O
  | S n' => if pair_ok src k then S (good_pairs n' src (S k)) else O
  end.

(** The bytes that pairs [k .. k+m) stand for. *)
Definition decoded (src : list Z) (k m : nat) : list Z :=
  map (pair_value src) (seq k m).

(** The number of pairs [gps_hexpack] sees: half the length of the
    source, the length being measured up to [BUFSIZ]. *)
Definition pairs (B : Z) (src : list Z) : Z := Z.min (lenZ (cstring src)) B / 2.

(** C6 as the specification states it, with the length of the whole
    source. *)
Definition hexpack_postcondition_as_stated (B : Z) : Prop :=
  forall src dst n dst',
    is_bytes src ->
    gps_hexpack B src dst (lenZ dst) = Done (n, dst') ->
    0 <= n ->
    n = lenZ (cstring src) / 2
    /\ (forall i, n <= i < lenZ dst -> dst' !! Z.to_nat i = Some 0)
    /\ n <= lenZ dst.

(** [MAX_PACKET_LENGTH] is a positive [int] constant. *)
Definition valid_MAX_PACKET_LENGTH (M : Z) : Prop := 0 < M < 2 ^ 31.

(** Two lowercase hex digits for each byte, high nibble first. *)
Definition hex_text (b : list Z) : list Z :=
  flat_map (fun c => [hexchar_at (c / 16); hexchar_at (c mod 16)]) b.

(** How many more pairs of hex digits the loop of [gps_hexdump] stores
    once [j] characters are in a destination of capacity [c]. *)
Definition pairs_that_fit (c j : Z) : nat := Z.to_nat ((c - 2 - j) / 2).

(** The number of source bytes [gps_hexdump] encodes into a destination
    of capacity [c]. *)
Definition encoded_bytes (M c : Z) (b : list Z) : nat :=
  (Z.to_nat (Z.min (lenZ b) M) `min` pairs_that_fit c 0)%nat.

(** C8 as the specification states it, for every capacity. *)
Definition hexdump_length_as_stated (M : Z) : Prop :=
  forall scbuf b scbuf',
    is_bytes b ->
    gps_hexdump M scbuf (lenZ scbuf) (Some b) (lenZ b) = Done scbuf' ->
    lenZ (cstring scbuf') = 2 * Z.min (lenZ b) M.

(** C2 as the specification states it: every buffer of at most
    [MAX_PACKET_LENGTH] bytes, the empty one included, with room enough
    on both sides. *)
Definition roundtrip_as_stated (M B : Z) : Prop :=
  forall b scbuf dst,
    is_bytes b ->
    is_bytes scbuf ->
    lenZ b <= M ->
    2 * lenZ b + 3 <= lenZ scbuf ->
    lenZ b <= lenZ dst ->
    exists scbuf' dst',
      gps_hexdump M scbuf (lenZ scbuf) (Some b) (lenZ b) = Done scbuf'
      /\ gps_hexpack B scbuf' dst (lenZ dst) = Done (lenZ b, dst')
      /\ take (length b) dst' = b.

(** What [gps_visibilize] stores for one source byte. *)
Definition visible (c : Z) : list Z :=
  if isprint c then [c] else bytes_of "\x" ++ fmt_02x c.

(** The text [gps_visibilize] stores for the source [src], [next]
    characters being in a destination of capacity [outlen]. *)
Fixpoint visible_text (outlen next : Z) (src : list Z) : list Z :=
  match src with
  | [] => []
  | c :: src' =>
      if next + 6 <? outlen
      then visible c ++ visible_text outlen (next + lenZ (visible c)) src'
      else []
  end.

(** C7 as the specification states it: a byte is copied when the test
    of [gpsd_packetdump] ([isprint] or [isspace]) accepts it, and the
    iteration goes on while four more characters fit in
    [capacity - 1]. *)
Definition visible_as_specified (c : Z) : list Z :=
  if isprint c || isspace c then [c] else bytes_of "\x" ++ fmt_02x c.

Fixpoint visibilize_as_specified (outlen next : Z) (src : list Z) : list Z :=
  match src with
  | [] => []
  | c :: src' =>
      if next + 4 <=? outlen - 1
      then visible_as_specified c
             ++ visibilize_as_specified outlen
                  (next + lenZ (visible_as_specified c)) src'
      else []
  end.

Definition visibilize_as_stated : Prop :=
  forall outbuf inbuf outbuf',
    is_bytes inbuf ->
    1 <= lenZ outbuf ->
    gps_visibilize outbuf (lenZ outbuf) inbuf (lenZ inbuf) = Done outbuf' ->
    cstring outbuf' = visibilize_as_specified (lenZ outbuf) 0 inbuf.

(** C3 as the specification states it, for every capacity. *)
Definition never_past_capacity_as_stated (M : Z) : Prop :=
  forall scbuf binbuf binbuflen outbuf inbuf inlen,
    in_bounds (gps_hexdump M scbuf (lenZ scbuf) binbuf binbuflen)
    /\ in_bounds (gps_visibilize outbuf (lenZ outbuf) inbuf inlen).

(** A run that ends well keeps the capacity [c] of its buffer, and no
    run ends in a store outside it. *)
Definition keeps_capacity (c : Z) (r : outcome (list Z)) : Prop :=
  match r with
  | Done buf => lenZ buf = c
  | Fault (BadLoad _) => True
  | Fault (BadStore _) => False
  end.

(** ** Vocabulary of the further properties *)

(** The test of [gpsd_packetdump] on one byte. *)
Definition printable_or_space (c : Z) : bool := isprint c || isspace c.

(** A character of [0-9a-f]. *)
Definition is_lower_hex (c : Z) : bool :=
  ((ch "0" <=? c) && (c <=? ch "9")) || ((ch "a" <=? c) && (c <=? ch "f")).

(** [toupper] of <ctype.h>, "C" locale. *)
Definition toupper (c : Z) : Z :=
  if (ch "a" <=? c) && (c <=? ch "z") then c - 32 else c.

(** Two characters that [hex2bin] cannot tell apart. *)
Definition same_digit (a b : Z) : Prop :=
  isxdigit a = isxdigit b /\ (isxdigit a = true -> digit_value a = digit_value b).

(** The escape [\xHL]. *)
Definition hex_escape (h l : Z) : list Z := bytes_of "\x" ++ [h; l].

(** The result of [hex_escapes] on a raw string, as the result of the
    loop entered with [cooked] already stored: a count grows by the
    bytes stored before, an error code stays. *)
Definition after_cooked (cooked : list Z) (r : Z * list Z) : Z * list Z :=
  (if 0 <=? r.1 then lenZ cooked + r.1 else r.1, cooked ++ r.2).

(** ** Tactics *)

(** Replace every character constant by its code. *)
Ltac eval_ch :=
  repeat match goal with
         | |- context [ch ?a] =>
             let v := eval vm_compute in (ch a) in change (ch a) with v
         end.

(** Close a goal about a character [h] by the cases of a disjunction
    [H] of equations [h = code]. *)
Ltac each_xdigit H :=
  repeat (destruct H as [->|H]; [reflexivity|]); subst; reflexivity.

(** C9 as the specification states it for a source of length 0: what
    [gpsd_packetdump] returns reads as the empty string. *)
Definition packetdump_empty_as_stated (M : Z) : Prop :=
  forall scbuf b d,
    1 <= lenZ scbuf ->
    gpsd_packetdump M scbuf (lenZ scbuf) (Some b) 0 = Done d ->
    dump_text (Some b) 0 d = [].

(** ** Arithmetic of the machine model *)

Lemma size_t_small x : 0 <= x < 2 ^ 64 -> size_t x = x.
Proof. intros H. unfold size_t. apply Z.mod_small. exact H. Qed.

Lemma ssize_t_small x : - 2 ^ 63 <= x < 2 ^ 63 -> ssize_t x = x.
Proof. intros H. unfold ssize_t. rewrite Z.mod_small; lia. Qed.

Lemma lenZ_nonneg l : 0 <= lenZ l.
Proof. unfold lenZ. lia. Qed.

Lemma lenZ_app l1 l2 : lenZ (l1 ++ l2) = lenZ l1 + lenZ l2.
Proof. unfold lenZ. rewrite length_app. lia. Qed.

Lemma lenZ_cons c l : lenZ (c :: l) = 1 + lenZ l.
Proof. unfold lenZ. simpl. lia. Qed.

(** ** [hex_escapes] *)

Lemma switch_None {A : Type} c (cases : list (Z * A)) :
  switch c cases = None <-> c ∉ cases.*1.
Proof.
  induction cases as [|[l a] rest IH]; simpl.
  - split; [intros _; apply not_elem_of_nil | reflexivity].
  - destruct (Z.eqb_spec c l) as [->|Hne].
    + split; [discriminate | intros H; exfalso; apply H; left].
    + rewrite IH, not_elem_of_cons. tauto.
Qed.

Lemma isxdigit_true c :
  isxdigit c = true <-> 48 <= c <= 57 \/ 97 <= c <= 102 \/ 65 <= c <= 70.
Proof.
  unfold isxdigit, ch. simpl.
  rewrite !orb_true_iff, !andb_true_iff, !Z.leb_le. tauto.
Qed.

Lemma isxdigit_false c :
  isxdigit c = false <-> ~ (48 <= c <= 57 \/ 97 <= c <= 102 \/ 65 <= c <= 70).
Proof. rewrite <- isxdigit_true. symmetry. apply not_true_iff_false. Qed.

Lemma high_nibble_None h :
  switch h high_nibble_cases = None <-> isxdigit h = false.
Proof.
  rewrite switch_None, isxdigit_false. unfold high_nibble_cases, ch. simpl.
  rewrite !not_elem_of_cons. split.
  - intros H. lia.
  - intros H. repeat split; try apply not_elem_of_nil; lia.
Qed.

Lemma low_nibble_None l :
  switch l low_nibble_cases = None <-> isxdigit l = false.
Proof.
  rewrite switch_None, isxdigit_false. unfold low_nibble_cases, ch. simpl.
  rewrite !not_elem_of_cons. split.
  - intros H. lia.
  - intros H. repeat split; try apply not_elem_of_nil; lia.
Qed.

Lemma escape_cases_None e :
  e ∉ escape_letters -> e <> ch "x" /\ switch e escape_cases = None.
Proof.
  intros H. rewrite switch_None.
  unfold escape_letters, escape_cases, bytes_of, ch in *. simpl in *.
  rewrite !not_elem_of_cons in *. repeat split; try apply not_elem_of_nil; lia.
Qed.

(** Decoding a prefix that ends between two items, then the rest, is
    decoding the whole string. *)
Lemma hex_escapes_loop_app n : forall pre cooked suf,
  (length pre <= n)%nat ->
  Forall (fun c => c <> 0) pre ->
  0 <= (hex_escapes_loop cooked pre).1 ->
  hex_escapes_loop cooked (pre ++ suf)
  = hex_escapes_loop (hex_escapes_loop cooked pre).2 suf.
Proof.
  induction n as [|n IH]; intros pre cooked suf Hlen Hnz Hok.
  - destruct pre; [reflexivity | simpl in Hlen; lia].
  - destruct pre as [|c raw1]; [reflexivity|].
    apply Forall_cons in Hnz as [Hc Hnz].
    cbn [hex_escapes_loop app length] in *.
    destruct (Z.eqb_spec c 0) as [|_]; [contradiction|].
    destruct (negb (c =? ch "\")).
    { apply IH; [lia | assumption | assumption]. }
    destruct raw1 as [|e raw2]; [cbn in Hok; lia|].
    apply Forall_cons in Hnz as [_ Hnz].
    cbn [hex_escapes_loop app length] in *.
    destruct (e =? ch "x").
    + destruct raw2 as [|h raw3]; [cbn in Hok; lia|].
      apply Forall_cons in Hnz as [_ Hnz].
      cbn [hex_escapes_loop app length] in *.
      destruct (switch h high_nibble_cases) as [hi|]; [|cbn in Hok; lia].
      destruct raw3 as [|l raw4]; [cbn in Hok; lia|].
      apply Forall_cons in Hnz as [_ Hnz].
      cbn [hex_escapes_loop app length] in *.
      destruct (switch l low_nibble_cases) as [lo|]; [|cbn in Hok; lia].
      apply IH; [lia | assumption | assumption].
    + destruct (switch e escape_cases) as [b|]; [|cbn in Hok; lia].
      apply IH; [lia | assumption | assumption].
Qed.

Lemma hex_escapes_app pre suf :
  decodes pre ->
  hex_escapes (pre ++ suf) = hex_escapes_loop (hex_escapes pre).2 suf.
Proof.
  intros [Hnz Hok]. unfold hex_escapes.
  apply (hex_escapes_loop_app (length pre)); [lia | assumption | assumption].
Qed.

Lemma hex_escapes_loop_x cooked h raw3 :
  hex_escapes_loop cooked (ch "\" :: ch "x" :: h :: raw3)
  = match switch h high_nibble_cases with
    | None => (-1, cooked)
    | Some hi =>
        match raw3 with
        | [] => (-2, cooked)
        | l :: raw4 =>
            match switch l low_nibble_cases with
            | None => (-2, cooked)
            | Some lo => hex_escapes_loop (cooked ++ [uchar (hi + lo)]) raw4
            end
        end
    end.
Proof. reflexivity. Qed.

Lemma hex_escapes_loop_letter cooked e raw2 :
  e <> ch "x" ->
  hex_escapes_loop cooked (ch "\" :: e :: raw2)
  = match switch e escape_cases with
    | None => (-3, cooked)
    | Some b => hex_escapes_loop (cooked ++ [b]) raw2
    end.
Proof.
  intros Hx. apply Z.eqb_neq in Hx.
  cbn [hex_escapes_loop]. change (ch "\" =? 0) with false.
  rewrite Z.eqb_refl, Hx. reflexivity.
Qed.

Lemma high_nibble_Some h :
  isxdigit h = true -> exists hi, switch h high_nibble_cases = Some hi.
Proof.
  intros Hh. destruct (switch h high_nibble_cases) as [hi|] eqn:E; [eauto|].
  apply high_nibble_None in E. congruence.
Qed.

(** C1.  The escape [\t] stores carriage return (13), not tab (9): on
    the raw string ["a\tb\x41"] [hex_escapes] returns 4 and the cooked
    bytes are [0x61; 0x0d; 0x62; 0x41], where the specification asks for
    [0x61; 0x09; 0x62; 0x41]. *)
Theorem hex_escapes_tab_stores_cr :
  hex_escapes (bytes_of "a\tb\x41") = (4, [0x61; 0x0d; 0x62; 0x41])
  /\ hex_escapes (bytes_of "a\tb\x41") <> (4, [0x61; 0x09; 0x62; 0x41])
  /\ hex_escapes (bytes_of "\t") = hex_escapes (bytes_of "\r").
Proof. repeat split. discriminate. Qed.

(** C5.  Wherever an escape starts, a first character after [\x] that
    is no hex digit makes [hex_escapes] return -1, a second one that is
    no hex digit makes it return -2, and a character after the backslash
    that is no escape letter makes it return -3, whatever follows in the
    raw string; the cooked buffer keeps what was stored before.  The
    three codes are negative and distinct, and ["a\q"] gives -3. *)
Theorem hex_escapes_failure_modes (pre rest : list Z) (h1 h2 l2 e : Z) :
  decodes pre ->
  isxdigit h1 = false ->
  isxdigit h2 = true ->
  isxdigit l2 = false ->
  e ∉ escape_letters ->
  hex_escapes (pre ++ bytes_of "\x" ++ h1 :: rest) = (-1, (hex_escapes pre).2)
  /\ hex_escapes (pre ++ bytes_of "\x" ++ h2 :: l2 :: rest) = (-2, (hex_escapes pre).2)
  /\ hex_escapes (pre ++ bytes_of "\" ++ e :: rest) = (-3, (hex_escapes pre).2)
  /\ hex_escapes (bytes_of "a\q") = (-3, bytes_of "a").
Proof.
  intros Hpre Hh1 Hh2 Hl2 He.
  apply high_nibble_None in Hh1. apply low_nibble_None in Hl2.
  destruct (high_nibble_Some h2 Hh2) as [hi Hhi].
  apply escape_cases_None in He as [Hx He].
  rewrite !hex_escapes_app by assumption.
  repeat split.
  - change (bytes_of "\x" ++ h1 :: rest) with (ch "\" :: ch "x" :: h1 :: rest).
    rewrite hex_escapes_loop_x, Hh1. reflexivity.
  - change (bytes_of "\x" ++ h2 :: l2 :: rest)
      with (ch "\" :: ch "x" :: h2 :: l2 :: rest).
    rewrite hex_escapes_loop_x, Hhi, Hl2. reflexivity.
  - change (bytes_of "\" ++ e :: rest) with (ch "\" :: e :: rest).
    rewrite hex_escapes_loop_letter, He by assumption. reflexivity.
Qed.

Lemma hex_escapes_failure_modes_witness :
  decodes (bytes_of "a")
  /\ hex_escapes (bytes_of "a" ++ bytes_of "\x" ++ ch "g" :: bytes_of "1")
     = (-1, bytes_of "a")
  /\ hex_escapes (bytes_of "a" ++ bytes_of "\x" ++ ch "4" :: ch "g" :: bytes_of "1")
     = (-2, bytes_of "a")
  /\ hex_escapes (bytes_of "a" ++ bytes_of "\" ++ ch "q" :: bytes_of "1")
     = (-3, bytes_of "a").
Proof.
  assert (Hd : decodes (bytes_of "a")).
  { split; [cbn; repeat (apply Forall_cons_2; [lia|]); apply Forall_nil_2
           | vm_compute; discriminate]. }
  split; [exact Hd|].
  assert (He : ch "q" ∉ escape_letters).
  { unfold escape_letters, bytes_of, ch. cbn. rewrite !not_elem_of_cons.
    repeat split; try apply not_elem_of_nil; lia. }
  destruct (hex_escapes_failure_modes (bytes_of "a") (bytes_of "1")
              (ch "g") (ch "4") (ch "g") (ch "q") Hd eq_refl eq_refl eq_refl He)
    as (H1 & H2 & H3 & _).
  split; [exact H1|]. split; [exact H2 | exact H3].
Defined.

(** C10.  A raw string that ends inside an escape fails with a definite
    code: ending in a backslash that starts an escape gives -3, ending
    in [\x] gives -1, ending in [\x] and one hex digit gives -2.  The
    terminator is what the pending [switch] reads, and nothing behind it
    is looked at: the results are the same whatever bytes [junk] follow
    the NUL in memory. *)
Theorem hex_escapes_truncated_escape (pre junk : list Z) (h : Z) :
  decodes pre ->
  isxdigit h = true ->
  hex_escapes (pre ++ bytes_of "\") = (-3, (hex_escapes pre).2)
  /\ hex_escapes (pre ++ bytes_of "\x") = (-1, (hex_escapes pre).2)
  /\ hex_escapes (pre ++ bytes_of "\x" ++ [h]) = (-2, (hex_escapes pre).2)
  /\ hex_escapes (pre ++ bytes_of "\" ++ 0 :: junk) = (-3, (hex_escapes pre).2)
  /\ hex_escapes (pre ++ bytes_of "\x" ++ 0 :: junk) = (-1, (hex_escapes pre).2)
  /\ hex_escapes (pre ++ bytes_of "\x" ++ h :: 0 :: junk) = (-2, (hex_escapes pre).2).
Proof.
  intros Hpre Hh.
  destruct (high_nibble_Some h Hh) as [hi Hhi].
  rewrite !hex_escapes_app by assumption.
  repeat split; try reflexivity.
  - change (bytes_of "\x" ++ [h]) with (ch "\" :: ch "x" :: h :: []).
    rewrite hex_escapes_loop_x, Hhi. reflexivity.
  - change (bytes_of "\x" ++ h :: 0 :: junk)
      with (ch "\" :: ch "x" :: h :: 0 :: junk).
    rewrite hex_escapes_loop_x, Hhi. reflexivity.
Qed.

Lemma hex_escapes_truncated_escape_witness :
  decodes (bytes_of "ab\n")
  /\ hex_escapes (bytes_of "ab\n" ++ bytes_of "\") = (-3, [97; 98; 10])
  /\ hex_escapes (bytes_of "ab\n" ++ bytes_of "\x") = (-1, [97; 98; 10])
  /\ hex_escapes (bytes_of "ab\n" ++ bytes_of "\x" ++ [ch "F"]) = (-2, [97; 98; 10]).
Proof.
  assert (Hd : decodes (bytes_of "ab\n")).
  { split; [cbn; repeat (apply Forall_cons_2; [lia|]); apply Forall_nil_2
           | vm_compute; discriminate]. }
  split; [exact Hd|].
  destruct (hex_escapes_truncated_escape (bytes_of "ab\n") [] (ch "F") Hd eq_refl)
    as (H1 & H2 & H3 & _).
  split; [exact H1|]. split; [exact H2 | exact H3].
Defined.

(** ** Bytes and hex digits *)

Lemma byte_forall (P : Z -> bool) :
  forallb P (map Z.of_nat (seq 0 256)) = true ->
  forall b, 0 <= b < 256 -> P b = true.
Proof.
  intros H b Hb. rewrite forallb_forall in H. apply H.
  apply in_map_iff. exists (Z.to_nat b). split; [lia|].
  apply in_seq. lia.
Qed.

Lemma land_char_to_int b : 0 <= b < 256 -> Z.land (char_to_int b) 255 = b.
Proof.
  intros Hb. apply Z.eqb_eq.
  apply (byte_forall (fun b => Z.land (char_to_int b) 255 =? b)); [reflexivity | exact Hb].
Qed.

Lemma char_at_byte s i : is_bytes s -> 0 <= char_at s i < 256.
Proof.
  intros Hs. unfold char_at. destruct (s !! i) as [c|] eqn:E; simpl; [|lia].
  unfold is_bytes in Hs. rewrite Forall_lookup in Hs. exact (Hs i c E).
Qed.

Lemma hex2bin_digit_spec a :
  hex2bin_digit a = if isxdigit a then Some (digit_value a) else None.
Proof.
  unfold hex2bin_digit, isxdigit, digit_value. eval_ch.
  rewrite !Z.geb_leb.
  destruct (Z.leb_spec 97 a), (Z.leb_spec a 102), (Z.leb_spec 65 a),
    (Z.leb_spec a 70), (Z.leb_spec 48 a), (Z.leb_spec a 57);
    simpl; try reflexivity; try lia; f_equal; lia.
Qed.

Lemma digit_value_range c : isxdigit c = true -> 0 <= digit_value c < 16.
Proof.
  rewrite isxdigit_true. unfold digit_value. eval_ch.
  destruct (Z.leb_spec 97 c), (Z.leb_spec c 102), (Z.leb_spec 65 c),
    (Z.leb_spec c 70); simpl; lia.
Qed.

Lemma pair_value_range src k : pair_ok src k = true -> 0 <= pair_value src k < 256.
Proof.
  unfold pair_ok, pair_value. rewrite andb_true_iff. intros [Ha Hb].
  apply digit_value_range in Ha, Hb. lia.
Qed.

Lemma hex2bin_spec src k :
  is_bytes src ->
  hex2bin src (2 * k) = if pair_ok src k then pair_value src k else -1.
Proof.
  intros Hs. unfold hex2bin, pair_ok, pair_value.
  rewrite !land_char_to_int by (apply char_at_byte; exact Hs).
  rewrite !hex2bin_digit_spec.
  destruct (isxdigit (char_at src (2 * k))); [|reflexivity].
  destruct (isxdigit (char_at src (2 * k + 1))); [|reflexivity].
  simpl. rewrite Z.shiftl_mul_pow2 by lia. lia.
Qed.

Lemma uchar_land_byte k : 0 <= k < 256 -> uchar (Z.land k 255) = k.
Proof.
  intros Hk. change 255 with (Z.ones 8). rewrite Z.land_ones by lia.
  unfold uchar. change (2 ^ 8) with 256. rewrite Z.mod_mod by lia.
  apply Z.mod_small. exact Hk.
Qed.

(** ** Stores into a buffer seen as written part and rest *)

Lemma store_app pre x rest v :
  store (pre ++ x :: rest) (lenZ pre) v = Done (pre ++ v :: rest).
Proof.
  unfold store. rewrite decide_True.
  - f_equal. unfold lenZ. rewrite Nat2Z.id.
    rewrite insert_app_r_alt by lia. rewrite Nat.sub_diag. reflexivity.
  - rewrite lenZ_app, lenZ_cons.
    pose proof (lenZ_nonneg pre). pose proof (lenZ_nonneg rest). lia.
Qed.

Lemma store_app_next pre a x rest v :
  store (pre ++ a :: x :: rest) (lenZ pre + 1) v = Done (pre ++ a :: v :: rest).
Proof.
  replace (lenZ pre + 1) with (lenZ (pre ++ [a])) by (rewrite lenZ_app; reflexivity).
  rewrite (cons_middle a pre (x :: rest)), app_assoc, store_app.
  rewrite <- app_assoc. reflexivity.
Qed.

Lemma store_end pre v : store pre (lenZ pre) v = Fault (BadStore (lenZ pre)).
Proof. unfold store. rewrite decide_False by lia. reflexivity. Qed.

Lemma memset_spec v : forall n pre rest,
  (n <= length rest)%nat ->
  memset n (pre ++ rest) (lenZ pre) v = Done (pre ++ replicate n v ++ drop n rest).
Proof.
  induction n as [|n IH]; intros pre rest Hn; [reflexivity|].
  destruct rest as [|x rest]; [simpl in Hn; lia|].
  cbn [memset]. rewrite store_app. cbn [mbind outcome_bind].
  replace (lenZ pre + 1) with (lenZ (pre ++ [v])) by (rewrite lenZ_app; reflexivity).
  rewrite (cons_middle v pre rest), app_assoc.
  rewrite IH by (simpl in Hn; lia).
  rewrite <- app_assoc. reflexivity.
Qed.

(** ** [gps_hexpack] *)

Lemma length_decoded src k m : length (decoded src k m) = m.
Proof. unfold decoded. rewrite length_map, length_seq. reflexivity. Qed.

Lemma good_pairs_le n : forall src k, (good_pairs n src k <= n)%nat.
Proof.
  induction n as [|n IH]; intros src k; simpl; [lia|].
  destruct (pair_ok src k); [specialize (IH src (S k))|]; lia.
Qed.

(** Below [good_pairs] every pair is well formed. *)
Lemma good_pairs_ok n : forall src k i,
  (i < good_pairs n src k)%nat -> pair_ok src (k + i) = true.
Proof.
  induction n as [|n IH]; intros src k i Hi; simpl in Hi; [lia|].
  destruct (pair_ok src k) eqn:E; [|lia].
  destruct i as [|i]; [rewrite Nat.add_0_r; exact E|].
  replace (k + S i)%nat with (S k + i)%nat by lia. apply IH. lia.
Qed.

(** When [good_pairs] stops early, it stops at a malformed pair. *)
Lemma good_pairs_stop n : forall src k,
  (good_pairs n src k < n)%nat -> pair_ok src (k + good_pairs n src k) = false.
Proof.
  induction n as [|n IH]; intros src k Hg; simpl in *; [lia|].
  destruct (pair_ok src k) eqn:E.
  - replace (k + S (good_pairs n src (S k)))%nat
      with (S k + good_pairs n src (S k))%nat by lia.
    apply IH. lia.
  - rewrite Nat.add_0_r. exact E.
Qed.

Lemma hexpack_loop_spec src :
  is_bytes src ->
  forall n pre rest,
    (n <= length rest)%nat ->
    hexpack_loop n src (lenZ pre) (pre ++ rest)
    = Done (if decide (good_pairs n src (length pre) = n)
            then Some (lenZ pre + Z.of_nat n) else None,
            pre ++ decoded src (length pre) (good_pairs n src (length pre))
                ++ drop (good_pairs n src (length pre)) rest).
Proof.
  intros Hs. induction n as [|n IH]; intros pre rest Hn.
  - cbn. rewrite Z.add_0_r. reflexivity.
  - destruct rest as [|x rest]; [simpl in Hn; lia|].
    cbn [hexpack_loop good_pairs].
    replace (Z.to_nat (lenZ pre * 2)) with (2 * length pre)%nat by (unfold lenZ; lia).
    rewrite hex2bin_spec by exact Hs.
    destruct (pair_ok src (length pre)) eqn:Eok.
    + pose proof (pair_value_range _ _ Eok) as Hv.
      destruct (Z.eqb_spec (-1) (pair_value src (length pre))) as [Heq|_]; [lia|].
      rewrite uchar_land_byte by exact Hv.
      rewrite store_app. cbn [mbind outcome_bind].
      replace (lenZ pre + 1) with (lenZ (pre ++ [pair_value src (length pre)]))
        by (rewrite lenZ_app; reflexivity).
      rewrite (cons_middle _ pre rest), app_assoc.
      rewrite IH by (simpl in Hn; lia).
      rewrite length_app, Nat.add_1_r, lenZ_app. cbn [length].
      f_equal. f_equal.
      * destruct (decide (good_pairs n src (S (length pre)) = n)),
          (decide (S (good_pairs n src (S (length pre))) = S n));
          try lia. 
        -- f_equal. unfold lenZ. simpl. lia.
        -- reflexivity.
      * rewrite <- app_assoc. reflexivity.
    + cbn. reflexivity.
Qed.

Lemma pairs_range B src : valid_BUFSIZ B -> 0 <= pairs B src < 2 ^ 30.
Proof.
  unfold valid_BUFSIZ, pairs. intros HB. pose proof (lenZ_nonneg (cstring src)).
  split.
  - apply Z.div_pos; lia.
  - apply Z.div_lt_upper_bound; lia.
Qed.

(** What a call of [gps_hexpack] does, on a destination of the declared
    capacity. *)
Lemma gps_hexpack_run B src dst :
  valid_BUFSIZ B ->
  is_bytes src ->
  lenZ dst <= PTRDIFF_MAX ->
  gps_hexpack B src dst (lenZ dst)
  = if decide (pairs B src < 1 \/ lenZ dst < pairs B src) then Done (-2, dst)
    else if decide (good_pairs (Z.to_nat (pairs B src)) src 0 = Z.to_nat (pairs B src))
    then Done (pairs B src,
               decoded src 0 (Z.to_nat (pairs B src))
                 ++ replicate (length dst - Z.to_nat (pairs B src)) 0)
    else Done (-1,
               decoded src 0 (good_pairs (Z.to_nat (pairs B src)) src 0)
                 ++ drop (good_pairs (Z.to_nat (pairs B src)) src 0) dst).
Proof.
  intros HB Hs Hcap. pose proof (pairs_range B src HB) as Hj.
  unfold PTRDIFF_MAX in Hcap. pose proof (lenZ_nonneg dst) as Hd.
  unfold gps_hexpack, strnlen.
  rewrite (size_t_small B) by (unfold valid_BUFSIZ in HB; lia).
  fold (pairs B src).
  rewrite ssize_t_small by lia. rewrite size_t_small by lia.
  rewrite !Z.gtb_ltb.
  destruct (decide (pairs B src < 1 \/ lenZ dst < pairs B src)) as [Hbad|Hgood].
  - destruct (Z.ltb_spec (pairs B src) 1), (Z.ltb_spec (lenZ dst) (pairs B src));
      try reflexivity; lia.
  - destruct (Z.ltb_spec (pairs B src) 1), (Z.ltb_spec (lenZ dst) (pairs B src));
      try lia.
    cbn [orb].
    pose proof (hexpack_loop_spec src Hs (Z.to_nat (pairs B src)) [] dst) as Hloop.
    cbn [app length] in Hloop. change (lenZ []) with 0 in Hloop.
    rewrite Hloop by (unfold lenZ in *; lia). clear Hloop.
    cbn [mbind outcome_bind].
    destruct (decide (good_pairs (Z.to_nat (pairs B src)) src 0
                      = Z.to_nat (pairs B src))) as [Hall|Hstop];
      [|reflexivity].
    rewrite Hall. rewrite Z.add_0_l, Z2Nat.id by lia.
    rewrite size_t_small by lia.
    set (n := Z.to_nat (pairs B src)).
    replace (pairs B src) with (lenZ (decoded src 0 n)) at 2
      by (unfold lenZ; rewrite length_decoded; unfold n; lia).
    replace (Z.to_nat (lenZ dst - pairs B src)) with (length dst - n)%nat
      by (unfold lenZ, n in *; lia).
    rewrite memset_spec by (rewrite length_drop; lia).
    cbn [mbind outcome_bind]. 
    rewrite (drop_ge (drop n dst)) by (rewrite length_drop; lia).
    rewrite app_nil_r. reflexivity.
Qed.

Lemma good_pairs_all n src :
  good_pairs n src 0 = n
  <-> forall i, (i < 2 * n)%nat -> isxdigit (char_at src i) = true.
Proof.
  split.
  - intros Hall i Hi.
    assert (Hk : pair_ok src (0 + i / 2) = true).
    { apply (good_pairs_ok n). rewrite Hall. apply Nat.Div0.div_lt_upper_bound. lia. }
    unfold pair_ok in Hk. apply andb_true_iff in Hk as [H0 H1]. simpl in H0, H1.
    pose proof (Nat.div_mod_eq i 2) as Hdm.
    pose proof (Nat.mod_upper_bound i 2 ltac:(lia)) as Hm.
    destruct (decide (i mod 2 = 0)%nat) as [Hz|Hnz].
    + replace i with (i / 2 + (i / 2 + 0))%nat at 1 by lia. exact H0.
    + replace i with (i / 2 + (i / 2 + 0) + 1)%nat at 1 by lia. exact H1.
  - intros Hhex. pose proof (good_pairs_le n src 0) as Hle.
    destruct (decide (good_pairs n src 0 = n)) as [|Hne]; [assumption|].
    assert (Hlt : (good_pairs n src 0 < n)%nat) by lia.
    pose proof (good_pairs_stop n src 0 Hlt) as Hbad. simpl in Hbad.
    unfold pair_ok in Hbad. apply andb_false_iff in Hbad as [Hbad|Hbad];
      rewrite Hhex in Hbad by lia; discriminate.
Qed.

(** C4.  On a destination of the declared capacity [gps_hexpack] runs to
    its end, and with [pairs] half the length of the source measured up
    to [BUFSIZ]: it returns -2 exactly when [pairs < 1] or [pairs]
    exceeds the capacity; otherwise it returns -1 exactly when one of
    the first [2 * pairs] characters is no hex digit, and then it has
    stopped at the first malformed pair [k], the [k] bytes decoded
    before it being left in the destination.  With capacity 2 the
    source ["abcdef"] gives -2, and with capacity 4 the source ["12g4"]
    gives -1. *)
Theorem gps_hexpack_errors (B : Z) (src dst : list Z) :
  valid_BUFSIZ B ->
  is_bytes src ->
  lenZ dst <= PTRDIFF_MAX ->
  (exists ret dst',
      gps_hexpack B src dst (lenZ dst) = Done (ret, dst')
      /\ (ret = -2 <-> pairs B src < 1 \/ pairs B src > lenZ dst)
      /\ (~ (pairs B src < 1 \/ pairs B src > lenZ dst) ->
          (ret = -1 <->
           exists i : nat, Z.of_nat i < 2 * pairs B src
                           /\ isxdigit (char_at src i) = false))
      /\ (ret = -1 ->
          exists k : nat,
            Z.of_nat k < pairs B src
            /\ pair_ok src k = false
            /\ (forall k', (k' < k)%nat -> pair_ok src k' = true)
            /\ dst' = decoded src 0 k ++ drop k dst)
      /\ (ret = -2 -> dst' = dst))
  /\ (forall d, lenZ d = 2 ->
      gps_hexpack B (bytes_of "abcdef") d 2 = Done (-2, d))
  /\ (forall d, lenZ d = 4 ->
      gps_hexpack B (bytes_of "12g4") d 4 = Done (-1, 0x12 :: drop 1 d)).
Proof.
  intros HB Hs Hcap. split; [|split].
  - rewrite gps_hexpack_run by assumption.
    pose proof (pairs_range B src HB) as Hj.
    set (n := Z.to_nat (pairs B src)).
    pose proof (good_pairs_le n src 0) as Hle.
    destruct (decide (pairs B src < 1 \/ lenZ dst < pairs B src)) as [Hbad|Hgood].
    { eexists _, _. split; [reflexivity|].
      repeat split; try (intros; lia); tauto. }
    destruct (decide (good_pairs n src 0 = n)) as [Hall|Hstop].
    + eexists _, _. split; [reflexivity|].
      split; [split; intros; lia|]. split; [|split; intros; lia].
      intros _. split; [intros; lia|].
      intros (i & Hi & Hbad). rewrite good_pairs_all in Hall.
      rewrite Hall in Hbad by lia. discriminate.
    + eexists _, _. split; [reflexivity|].
      assert (Hlt : (good_pairs n src 0 < n)%nat) by lia.
      pose proof (good_pairs_stop n src 0 Hlt) as Hk. simpl in Hk.
      split; [split; intros; lia|]. split; [|split; [|intros; lia]].
      * intros _. split; [|reflexivity]. intros _.
        unfold pair_ok in Hk. apply andb_false_iff in Hk as [Hk|Hk].
        -- exists (2 * good_pairs n src 0)%nat. split; [lia | exact Hk].
        -- exists (2 * good_pairs n src 0 + 1)%nat. split; [lia | exact Hk].
      * intros _. exists (good_pairs n src 0). split; [lia|]. split; [exact Hk|].
        split; [|reflexivity].
        intros k' Hk'. apply (good_pairs_ok n src 0 k' Hk').
  - intros d Hd. rewrite <- Hd.
    rewrite gps_hexpack_run; [| assumption | | unfold PTRDIFF_MAX; lia].
    2: { unfold bytes_of. cbn. repeat (apply Forall_cons_2; [lia|]). apply Forall_nil_2. }
    assert (Hp : pairs B (bytes_of "abcdef") = 3).
    { unfold pairs. change (lenZ (cstring (bytes_of "abcdef"))) with 6.
      unfold valid_BUFSIZ in HB. rewrite Z.min_l by lia. reflexivity. }
    rewrite Hp. rewrite decide_True by lia. reflexivity.
  - intros d Hd. rewrite <- Hd.
    rewrite gps_hexpack_run; [| assumption | | unfold PTRDIFF_MAX; lia].
    2: { unfold bytes_of. cbn. repeat (apply Forall_cons_2; [lia|]). apply Forall_nil_2. }
    assert (Hp : pairs B (bytes_of "12g4") = 2).
    { unfold pairs. change (lenZ (cstring (bytes_of "12g4"))) with 4.
      unfold valid_BUFSIZ in HB. rewrite Z.min_l by lia. reflexivity. }
    rewrite Hp. rewrite decide_False by lia. reflexivity.
Qed.

Lemma gps_hexpack_errors_witness :
  valid_BUFSIZ 8192
  /\ is_bytes (bytes_of "12g4")
  /\ lenZ (replicate 4 0) <= PTRDIFF_MAX
  /\ gps_hexpack 8192 (bytes_of "12g4") (replicate 4 0) 4 = Done (-1, [0x12; 0; 0; 0])
  /\ gps_hexpack 8192 (bytes_of "abcdef") (replicate 2 0) 2 = Done (-2, [0; 0]).
Proof.
  assert (HB : valid_BUFSIZ 8192) by (unfold valid_BUFSIZ; lia).
  assert (Hs : is_bytes (bytes_of "12g4")).
  { unfold bytes_of. cbn. repeat (apply Forall_cons_2; [lia|]). apply Forall_nil_2. }
  assert (Hc : lenZ (replicate 4 0) <= PTRDIFF_MAX) by (vm_compute; discriminate).
  destruct (gps_hexpack_errors 8192 (bytes_of "12g4") (replicate 4 0) HB Hs Hc)
    as (_ & H2 & H4).
  split; [exact HB|]. split; [exact Hs|]. split; [exact Hc|].
  split; [exact (H4 (replicate 4 0) eq_refl) | exact (H2 (replicate 2 0) eq_refl)].
Defined.

Lemma cstring_nonzero t : Forall (fun c => c <> 0) t -> cstring t = t.
Proof.
  induction 1 as [|c t Hc Ht IH]; [reflexivity|].
  cbn. destruct (Z.eqb_spec c 0); [contradiction|]. rewrite IH. reflexivity.
Qed.

Lemma char_at_replicate n c i : (i < n)%nat -> char_at (replicate n c) i = c.
Proof.
  intros Hi. unfold char_at. rewrite lookup_replicate_2 by exact Hi. reflexivity.
Qed.

(** C6, as stated, fails where the source is longer than [BUFSIZ]: with
    [BUFSIZ] 8192, a source of 8194 hex digits and room for 4097 bytes,
    [gps_hexpack] succeeds and returns 4096, not 8194 / 2. *)
Lemma hexpack_postcondition_as_stated_fails :
  ~ hexpack_postcondition_as_stated 8192.
Proof.
  intros Hclaim.
  set (src := replicate (Z.to_nat 8194) (ch "0")).
  set (dst := replicate (Z.to_nat 4097) 7).
  assert (Hs : is_bytes src).
  { apply Forall_replicate. change (ch "0") with 48. lia. }
  assert (Hlen : lenZ (cstring src) = 8194).
  { rewrite cstring_nonzero.
    - unfold lenZ, src. rewrite length_replicate. lia.
    - apply Forall_replicate. discriminate. }
  assert (Hld : lenZ dst = 4097)
    by (unfold lenZ, dst; rewrite length_replicate; lia).
  assert (Hp : pairs 8192 src = 4096) by (unfold pairs; rewrite Hlen; reflexivity).
  assert (Hrun : exists dst', gps_hexpack 8192 src dst (lenZ dst) = Done (4096, dst')).
  { rewrite gps_hexpack_run;
      [| unfold valid_BUFSIZ; lia | exact Hs | rewrite Hld; unfold PTRDIFF_MAX; lia].
    rewrite Hp, Hld. rewrite decide_False by lia.
    rewrite decide_True; [eexists; reflexivity|].
    apply good_pairs_all. intros i Hi.
    unfold src. rewrite char_at_replicate by lia. reflexivity. }
  destruct Hrun as [dst' Hrun].
  destruct (Hclaim _ _ _ _ Hs Hrun ltac:(lia)) as [Hn _].
  rewrite Hlen in Hn. vm_compute in Hn. discriminate.
Qed.

(** C6, amended.  On a destination of the declared capacity
    [gps_hexpack] runs to its end; when it succeeds, the value returned
    is half the length of the source measured up to [BUFSIZ], it is at
    most the capacity, the destination starts with the decoded bytes and
    every byte of it from there up to the capacity is zero. *)
Theorem gps_hexpack_success (B : Z) (src dst : list Z) :
  valid_BUFSIZ B ->
  is_bytes src ->
  lenZ dst <= PTRDIFF_MAX ->
  exists ret dst',
    gps_hexpack B src dst (lenZ dst) = Done (ret, dst')
    /\ (0 <= ret ->
        ret = Z.min (lenZ (cstring src)) B / 2
        /\ ret <= lenZ dst
        /\ lenZ dst' = lenZ dst
        /\ take (Z.to_nat ret) dst' = decoded src 0 (Z.to_nat ret)
        /\ forall i, ret <= i < lenZ dst -> dst' !! Z.to_nat i = Some 0).
Proof.
  intros HB Hs Hcap. rewrite gps_hexpack_run by assumption.
  pose proof (pairs_range B src HB) as Hj.
  destruct (decide (pairs B src < 1 \/ lenZ dst < pairs B src)) as [Hbad|Hgood].
  { eexists _, _. split; [reflexivity | intros; lia]. }
  destruct (decide (good_pairs (Z.to_nat (pairs B src)) src 0
                    = Z.to_nat (pairs B src))) as [Hall|Hstop].
  2: { eexists _, _. split; [reflexivity | intros; lia]. }
  eexists _, _. split; [reflexivity|]. intros _.
  set (n := Z.to_nat (pairs B src)).
  assert (Hn : (n <= length dst)%nat) by (unfold n, lenZ in *; lia).
  split; [reflexivity|]. split; [lia|]. split; [|split].
  - unfold lenZ. rewrite length_app, length_decoded, length_replicate. lia.
  - rewrite take_app_length' by (rewrite length_decoded; reflexivity). reflexivity.
  - intros i Hi.
    rewrite lookup_app_r by (rewrite length_decoded; unfold n; lia).
    rewrite length_decoded. apply lookup_replicate_2. unfold n, lenZ in *. lia.
Qed.

Lemma gps_hexpack_success_witness :
  valid_BUFSIZ 8192
  /\ is_bytes (bytes_of "12aBcDe")
  /\ lenZ (replicate 5 7) <= PTRDIFF_MAX
  /\ exists ret dst',
      gps_hexpack 8192 (bytes_of "12aBcDe") (replicate 5 7) (lenZ (replicate 5 7))
      = Done (ret, dst')
      /\ (0 <= ret ->
          ret = Z.min (lenZ (cstring (bytes_of "12aBcDe"))) 8192 / 2
          /\ ret <= lenZ (replicate 5 7)
          /\ lenZ dst' = lenZ (replicate 5 7)
          /\ take (Z.to_nat ret) dst' = decoded (bytes_of "12aBcDe") 0 (Z.to_nat ret)
          /\ forall i, ret <= i < lenZ (replicate 5 7) ->
                       dst' !! Z.to_nat i = Some 0).
Proof.
  assert (HB : valid_BUFSIZ 8192) by (unfold valid_BUFSIZ; lia).
  assert (Hs : is_bytes (bytes_of "12aBcDe")).
  { unfold bytes_of. cbn. repeat (apply Forall_cons_2; [lia|]). apply Forall_nil_2. }
  assert (Hc : lenZ (replicate 5 7) <= PTRDIFF_MAX) by (vm_compute; discriminate).
  split; [exact HB|]. split; [exact Hs|]. split; [exact Hc|].
  exact (gps_hexpack_success 8192 (bytes_of "12aBcDe") (replicate 5 7) HB Hs Hc).
Defined.

(** ** [gps_hexdump] *)

Lemma load_app seen b todo : load (seen ++ b :: todo) (lenZ seen) = Done b.
Proof.
  unfold load. rewrite decide_True by apply lenZ_nonneg.
  unfold lenZ. rewrite Nat2Z.id, list_lookup_middle by reflexivity. reflexivity.
Qed.

Lemma high_nibble_byte b :
  0 <= b < 256 -> Z.shiftr (Z.land (char_to_int b) 240) 4 = b / 16.
Proof.
  intros Hb. apply Z.eqb_eq.
  apply (byte_forall (fun b => Z.shiftr (Z.land (char_to_int b) 240) 4 =? b / 16));
    [reflexivity | exact Hb].
Qed.

Lemma low_nibble_byte b :
  0 <= b < 256 -> Z.land (char_to_int b) 15 = b mod 16.
Proof.
  intros Hb. apply Z.eqb_eq.
  apply (byte_forall (fun b => Z.land (char_to_int b) 15 =? b mod 16));
    [reflexivity | exact Hb].
Qed.

Lemma hexchar_nonzero b :
  0 <= b < 256 -> hexchar_at (b / 16) <> 0 /\ hexchar_at (b mod 16) <> 0.
Proof.
  intros Hb.
  pose proof (byte_forall
    (fun b => negb (hexchar_at (b / 16) =? 0) && negb (hexchar_at (b mod 16) =? 0))
    eq_refl b Hb) as H.
  apply andb_true_iff in H as [H1 H2].
  apply negb_true_iff, Z.eqb_neq in H1, H2. split; assumption.
Qed.

Lemma hex_text_nonzero b : is_bytes b -> Forall (fun c => c <> 0) (hex_text b).
Proof.
  induction 1 as [|c b Hc Hb IH]; [constructor|].
  destruct (hexchar_nonzero c Hc). cbn. repeat constructor; assumption.
Qed.

Lemma length_hex_text b : length (hex_text b) = (2 * length b)%nat.
Proof.
  unfold hex_text. induction b as [|c b IH]; [reflexivity|].
  cbn [flat_map app length]. rewrite IH. lia.
Qed.

Lemma hex_text_snoc b c :
  hex_text (b ++ [c]) = hex_text b ++ [hexchar_at (c / 16); hexchar_at (c mod 16)].
Proof. unfold hex_text. rewrite flat_map_app. cbn. reflexivity. Qed.

Lemma cstring_app_nul t junk :
  Forall (fun c => c <> 0) t -> cstring (t ++ 0 :: junk) = t.
Proof.
  induction 1 as [|c t Hc Ht IH]; [reflexivity|].
  cbn. destruct (Z.eqb_spec c 0); [contradiction|]. rewrite IH. reflexivity.
Qed.

Lemma pairs_that_fit_more c j : j < c - 3 -> pairs_that_fit c j = S (pairs_that_fit c (j + 2)).
Proof.
  intros Hj. unfold pairs_that_fit.
  replace (c - 2 - j) with ((c - 2 - (j + 2)) + 1 * 2) by lia.
  rewrite Z.div_add by lia.
  assert (0 <= (c - 2 - (j + 2)) / 2) by (apply Z.div_pos; lia). lia.
Qed.

Lemma pairs_that_fit_none c j : c - 3 <= j -> pairs_that_fit c j = O.
Proof.
  intros Hj. unfold pairs_that_fit.
  assert ((c - 2 - j) / 2 <= 0); [|lia].
  apply Z.lt_succ_r. apply Z.div_lt_upper_bound; lia.
Qed.

(** The loop of [gps_hexdump], the source being split into the bytes
    seen and those to do, the destination into the part written and the
    rest. *)
Lemma hexdump_loop_spec c :
  3 <= c <= PTRDIFF_MAX ->
  forall n seen todo pre rest,
    is_bytes todo ->
    (n <= length todo)%nat ->
    lenZ pre + lenZ rest = c ->
    hexdump_loop n c (seen ++ todo) (lenZ seen) (lenZ pre) (pre ++ rest)
    = Done (lenZ pre + 2 * Z.of_nat (n `min` pairs_that_fit c (lenZ pre)),
            pre ++ hex_text (take (n `min` pairs_that_fit c (lenZ pre)) todo)
                ++ drop (2 * (n `min` pairs_that_fit c (lenZ pre))) rest).
Proof.
  intros Hc. unfold PTRDIFF_MAX in Hc.
  induction n as [|n IH]; intros seen todo pre rest Hb Hn Hlen.
  - cbn. rewrite Z.add_0_r. reflexivity.
  - cbn [hexdump_loop]. rewrite (size_t_small (c - 3)) by lia.
    pose proof (lenZ_nonneg pre) as Hpre. pose proof (lenZ_nonneg rest) as Hrest.
    destruct (Z.ltb_spec (lenZ pre) (c - 3)) as [Hfit|Hfull].
    + destruct todo as [|b todo]; [simpl in Hn; lia|].
      apply Forall_cons in Hb as [Hb Htodo].
      destruct rest as [|x [|y rest]];
        [unfold lenZ in *; simpl in *; lia | unfold lenZ in *; simpl in *; lia |].
      rewrite load_app. cbn [mbind outcome_bind].
      rewrite high_nibble_byte, low_nibble_byte by exact Hb.
      rewrite store_app. cbn [mbind outcome_bind].
      rewrite (size_t_small (lenZ pre + 1)), (size_t_small (lenZ pre + 2)) by lia.
      rewrite store_app_next. cbn [mbind outcome_bind].
      set (h1 := hexchar_at (b / 16)). set (h2 := hexchar_at (b mod 16)).
      replace (seen ++ b :: todo) with ((seen ++ [b]) ++ todo)
        by (rewrite <- app_assoc; reflexivity).
      replace (lenZ seen + 1) with (lenZ (seen ++ [b]))
        by (rewrite lenZ_app; reflexivity).
      replace (pre ++ h1 :: h2 :: rest) with ((pre ++ [h1; h2]) ++ rest)
        by (rewrite <- app_assoc; reflexivity).
      replace (lenZ pre + 2) with (lenZ (pre ++ [h1; h2]))
        by (rewrite lenZ_app; reflexivity).
      rewrite IH; [| exact Htodo | simpl in Hn; lia
                   | rewrite lenZ_app; unfold lenZ in *; simpl in *; lia].
      rewrite (pairs_that_fit_more c (lenZ pre)) by exact Hfit.
      rewrite lenZ_app. change (lenZ [h1; h2]) with 2.
      rewrite <- Nat.succ_min_distr.
      set (m := (n `min` pairs_that_fit c (lenZ pre + 2))%nat).
      replace (2 * S m)%nat with (S (S (2 * m))) by lia.
      cbn [take hex_text flat_map app drop]. rewrite <- app_assoc.
      f_equal. f_equal. lia.
    + rewrite pairs_that_fit_none by exact Hfull.
      rewrite Nat.min_0_r. cbn. rewrite Z.add_0_r. reflexivity.
Qed.

Lemma pairs_that_fit_bound c : 3 <= c -> 2 * Z.of_nat (pairs_that_fit c 0) <= c - 2.
Proof.
  intros Hc. unfold pairs_that_fit. rewrite Z.sub_0_r.
  rewrite Z2Nat.id by (apply Z.div_pos; lia).
  apply Z.mul_div_le. lia.
Qed.

Lemma encoded_bytes_le M c b : (encoded_bytes M c b <= length b)%nat.
Proof. unfold encoded_bytes, lenZ. lia. Qed.

(** What a call of [gps_hexdump] does on a source of [lenZ b] bytes and
    a destination of the declared capacity, at least 3. *)
Lemma gps_hexdump_run M scbuf b :
  valid_MAX_PACKET_LENGTH M ->
  is_bytes b ->
  lenZ b <= PTRDIFF_MAX ->
  3 <= lenZ scbuf <= PTRDIFF_MAX ->
  gps_hexdump M scbuf (lenZ scbuf) (Some b) (lenZ b)
  = Done (hex_text (take (encoded_bytes M (lenZ scbuf) b) b)
            ++ 0 :: drop (S (2 * encoded_bytes M (lenZ scbuf) b)) scbuf).
Proof.
  intros HM Hb Hlen Hc. unfold valid_MAX_PACKET_LENGTH in HM.
  pose proof Hc as Hc'. unfold PTRDIFF_MAX in Hlen, Hc'.
  pose proof (lenZ_nonneg b) as Hb0.
  unfold gps_hexdump.
  destruct (Z.eqb_spec (lenZ b) 0) as [Hz|Hnz].
  - assert (encoded_bytes M (lenZ scbuf) b = O) as -> by (unfold encoded_bytes; lia).
    destruct scbuf as [|x rest]; [unfold lenZ in *; simpl in *; lia|].
    cbn [take hex_text flat_map app drop Nat.mul].
    apply (store_app [] x rest 0).
  - rewrite (size_t_small M) by lia.
    replace (if lenZ b >? M then M else lenZ b) with (Z.min (lenZ b) M)
      by (rewrite Z.gtb_ltb; destruct (Z.ltb_spec M (lenZ b)); lia).
    rewrite size_t_small by lia.
    pose proof (hexdump_loop_spec (lenZ scbuf) Hc
                  (Z.to_nat (Z.min (lenZ b) M)) [] b [] scbuf Hb) as Hloop.
    cbn [app] in Hloop. change (lenZ []) with 0 in Hloop.
    rewrite Hloop by (unfold lenZ in *; lia). clear Hloop.
    fold (encoded_bytes M (lenZ scbuf) b).
    pose proof (encoded_bytes_le M (lenZ scbuf) b) as Hm.
    pose proof (pairs_that_fit_bound (lenZ scbuf) ltac:(lia)) as Hfit.
    set (m := encoded_bytes M (lenZ scbuf) b) in *.
    assert (Hm2 : (m <= pairs_that_fit (lenZ scbuf) 0)%nat)
      by (unfold m, encoded_bytes; lia).
    cbn [mbind outcome_bind]. rewrite Z.add_0_l.
    destruct (lookup_lt_is_Some_2 scbuf (2 * m)) as [x Hx];
      [unfold lenZ in *; lia|].
    rewrite (drop_S _ _ _ Hx).
    replace (2 * Z.of_nat m) with (lenZ (hex_text (take m b)))
      by (unfold lenZ; rewrite length_hex_text, length_take; lia).
    apply store_app.
Qed.

(** C8, as stated, fails when the capacity is short: with capacity 5
    the three bytes [ab cd 01] give the text ["ab"], 2 characters and
    not 6. *)
Lemma hexdump_length_as_stated_fails : ~ hexdump_length_as_stated 9216.
Proof.
  intros Hclaim.
  assert (Hb : is_bytes [0xab; 0xcd; 0x01]).
  { repeat (apply Forall_cons_2; [lia|]). apply Forall_nil_2. }
  specialize (Hclaim (replicate 5 0) [0xab; 0xcd; 0x01]
                     (bytes_of "ab" ++ [0; 0; 0]) Hb eq_refl).
  vm_compute in Hclaim. discriminate.
Qed.

(** C8, amended.  On a destination of capacity [c], at least 3, and a
    source of [n] bytes, [gps_hexdump] stores the hex text of the first
    [min (min n MAX_PACKET_LENGTH) ((c - 2) / 2)] source bytes, two
    lowercase digits each, and one terminator after it. *)
Theorem gps_hexdump_length (M : Z) (scbuf b : list Z) :
  valid_MAX_PACKET_LENGTH M ->
  is_bytes b ->
  lenZ b <= PTRDIFF_MAX ->
  3 <= lenZ scbuf <= PTRDIFF_MAX ->
  exists scbuf',
    gps_hexdump M scbuf (lenZ scbuf) (Some b) (lenZ b) = Done scbuf'
    /\ lenZ scbuf' = lenZ scbuf
    /\ cstring scbuf' = hex_text (take (encoded_bytes M (lenZ scbuf) b) b)
    /\ lenZ (cstring scbuf')
       = 2 * Z.min (Z.min (lenZ b) M) ((lenZ scbuf - 2) / 2)
    /\ scbuf' !! length (cstring scbuf') = Some 0.
Proof.
  intros HM Hb Hlen Hc. rewrite gps_hexdump_run by assumption.
  pose proof (encoded_bytes_le M (lenZ scbuf) b) as Hm.
  pose proof (pairs_that_fit_bound (lenZ scbuf) ltac:(lia)) as Hfit.
  assert (Hm2 : (encoded_bytes M (lenZ scbuf) b <= pairs_that_fit (lenZ scbuf) 0)%nat)
    by (unfold encoded_bytes; lia).
  assert (Hmz : Z.of_nat (encoded_bytes M (lenZ scbuf) b)
                = Z.min (Z.min (lenZ b) M) ((lenZ scbuf - 2) / 2)).
  { unfold encoded_bytes, pairs_that_fit, valid_MAX_PACKET_LENGTH in *.
    pose proof (lenZ_nonneg b).
    assert (0 <= (lenZ scbuf - 2 - 0) / 2) by (apply Z.div_pos; lia).
    rewrite Z.sub_0_r in *. lia. }
  set (m := encoded_bytes M (lenZ scbuf) b) in *.
  assert (Htext : cstring (hex_text (take m b) ++ 0 :: drop (S (2 * m)) scbuf)
                  = hex_text (take m b)).
  { apply cstring_app_nul, hex_text_nonzero, Forall_take, Hb. }
  eexists. split; [reflexivity|]. rewrite Htext.
  split; [|split; [reflexivity|split]].
  - unfold lenZ in *.
    rewrite length_app, length_hex_text, length_take. cbn [length].
    rewrite length_drop. lia.
  - rewrite <- Hmz. unfold lenZ. rewrite length_hex_text, length_take. lia.
  - apply list_lookup_middle. reflexivity.
Qed.

Lemma gps_hexdump_length_witness :
  valid_MAX_PACKET_LENGTH 9216
  /\ is_bytes [0xab; 0xcd; 0x01]
  /\ lenZ [0xab; 0xcd; 0x01] <= PTRDIFF_MAX
  /\ 3 <= lenZ (replicate 5 7) <= PTRDIFF_MAX
  /\ exists scbuf',
      gps_hexdump 9216 (replicate 5 7) (lenZ (replicate 5 7))
        (Some [0xab; 0xcd; 0x01]) (lenZ [0xab; 0xcd; 0x01]) = Done scbuf'
      /\ lenZ (cstring scbuf') = 2.
Proof.
  assert (HM : valid_MAX_PACKET_LENGTH 9216) by (unfold valid_MAX_PACKET_LENGTH; lia).
  assert (Hb : is_bytes [0xab; 0xcd; 0x01]).
  { repeat (apply Forall_cons_2; [lia|]). apply Forall_nil_2. }
  assert (Hl : lenZ [0xab; 0xcd; 0x01] <= PTRDIFF_MAX) by (vm_compute; discriminate).
  assert (Hc : 3 <= lenZ (replicate 5 7) <= PTRDIFF_MAX)
    by (split; vm_compute; discriminate).
  split; [exact HM|]. split; [exact Hb|]. split; [exact Hl|]. split; [exact Hc|].
  destruct (gps_hexdump_length 9216 (replicate 5 7) [0xab; 0xcd; 0x01] HM Hb Hl Hc)
    as (scbuf' & Hrun & _ & _ & Hlen & _).
  exists scbuf'. split; [exact Hrun | exact Hlen].
Defined.

(** C9, as stated, fails for a source of length 0 that is not NULL:
    [gpsd_packetdump] returns the source pointer, and the string there
    is whatever the source holds up to its first NUL; for the source
    ["ABC"] and the length 0 it reads ["ABC"]. *)
Lemma zero_length_source_text :
  ~ packetdump_empty_as_stated 9216
  /\ gpsd_packetdump 9216 [7] 1 (Some (bytes_of "ABC" ++ [0])) 0 = Done DumpBinbuf
  /\ dump_text (Some (bytes_of "ABC" ++ [0])) 0 DumpBinbuf = bytes_of "ABC".
Proof.
  split; [|split; reflexivity].
  intros Hclaim.
  specialize (Hclaim [7] (bytes_of "ABC" ++ [0]) DumpBinbuf
                     ltac:(vm_compute; discriminate) eq_refl).
  vm_compute in Hclaim. discriminate.
Qed.

(** C9, amended.  [gpsd_packetdump] returns the literal [""] for a NULL
    source, and for a source of length 0 the source pointer itself, in
    both cases without looking at the destination; the string at that
    pointer is empty exactly when the first byte of the source is NUL.
    [gps_hexdump], when the source is NULL or of length 0, stores a NUL
    at index 0 of a destination of at least one byte and nothing else,
    and returns that destination, which then reads as the empty
    string. *)
Theorem empty_input (M : Z) (scbuf b : list Z) (scbuflen binbuflen : Z) :
  1 <= lenZ scbuf ->
  gpsd_packetdump M scbuf scbuflen None binbuflen = Done DumpLiteral
  /\ dump_text None binbuflen DumpLiteral = []
  /\ gpsd_packetdump M scbuf scbuflen (Some b) 0 = Done DumpBinbuf
  /\ (dump_text (Some b) 0 DumpBinbuf = [] <-> char_at b 0 = 0)
  /\ gps_hexdump M scbuf scbuflen None binbuflen = Done (<[0%nat := 0]> scbuf)
  /\ gps_hexdump M scbuf scbuflen (Some b) 0 = Done (<[0%nat := 0]> scbuf)
  /\ <[0%nat := 0]> scbuf !! 0%nat = Some 0
  /\ lenZ (<[0%nat := 0]> scbuf) = lenZ scbuf
  /\ (forall i, (0 < i)%nat -> <[0%nat := 0]> scbuf !! i = scbuf !! i)
  /\ cstring (<[0%nat := 0]> scbuf) = [].
Proof.
  intros Hc.
  destruct scbuf as [|x rest]; [unfold lenZ in Hc; simpl in Hc; lia|].
  split; [reflexivity|]. split; [reflexivity|]. split; [reflexivity|].
  split.
  { destruct b as [|c b]; [split; reflexivity|].
    cbn [dump_text cstring]. change (char_at (c :: b) 0) with c.
    destruct (Z.eqb_spec c 0) as [Hz|Hnz].
    - split; intros _; [exact Hz | reflexivity].
    - split; intros H; [discriminate H | contradiction]. }
  split; [apply (store_app [] x rest 0)|].
  split; [apply (store_app [] x rest 0)|].
  split; [reflexivity|]. split; [reflexivity|]. split; [|reflexivity].
  intros [|i] Hi; [lia | reflexivity].
Qed.

Lemma empty_input_witness :
  1 <= lenZ [7; 8]
  /\ gpsd_packetdump 9216 [7; 8] 2 None 0 = Done DumpLiteral
  /\ gpsd_packetdump 9216 [7; 8] 2 (Some [0; 65]) 0 = Done DumpBinbuf
  /\ (dump_text (Some [0; 65]) 0 DumpBinbuf = [] <-> char_at [0; 65] 0 = 0)
  /\ gps_hexdump 9216 [7; 8] 2 None 0 = Done [0; 8]
  /\ gps_hexdump 9216 [7; 8] 2 (Some [0; 65]) 0 = Done [0; 8].
Proof.
  assert (Hc : 1 <= lenZ [7; 8]) by (vm_compute; discriminate).
  destruct (empty_input 9216 [7; 8] [0; 65] 2 0 Hc)
    as (H1 & _ & H2 & H3 & H4 & H5 & _).
  split; [exact Hc|]. split; [exact H1|]. split; [exact H2|]. split; [exact H3|].
  split; [exact H4 | exact H5].
Defined.

(** ** Round trip *)

Lemma char_at_cons2 x y s k : char_at (x :: y :: s) (S (S k)) = char_at s k.
Proof. reflexivity. Qed.

Lemma pair_ok_cons2 x y s k : pair_ok (x :: y :: s) (S k) = pair_ok s k.
Proof.
  unfold pair_ok.
  replace (2 * S k)%nat with (S (S (2 * k))) by lia.
  replace (S (S (2 * k)) + 1)%nat with (S (S (2 * k + 1))) by lia.
  rewrite !char_at_cons2. reflexivity.
Qed.

Lemma pair_value_cons2 x y s k : pair_value (x :: y :: s) (S k) = pair_value s k.
Proof.
  unfold pair_value.
  replace (2 * S k)%nat with (S (S (2 * k))) by lia.
  replace (S (S (2 * k)) + 1)%nat with (S (S (2 * k + 1))) by lia.
  rewrite !char_at_cons2. reflexivity.
Qed.

Lemma pair_ok_head x y s : pair_ok (x :: y :: s) 0 = isxdigit x && isxdigit y.
Proof. reflexivity. Qed.

Lemma pair_value_head x y s :
  pair_value (x :: y :: s) 0 = 16 * digit_value x + digit_value y.
Proof. reflexivity. Qed.

Lemma good_pairs_cons2 x y s n : forall k,
  good_pairs n (x :: y :: s) (S k) = good_pairs n s k.
Proof.
  induction n as [|n IH]; intros k; [reflexivity|].
  cbn [good_pairs]. rewrite pair_ok_cons2, IH. reflexivity.
Qed.

Lemma decoded_cons2 x y s k m : decoded (x :: y :: s) (S k) m = decoded s k m.
Proof.
  unfold decoded. rewrite <- seq_shift, map_map.
  apply map_ext. intros i. apply pair_value_cons2.
Qed.

Lemma hexchar_pair_byte c :
  0 <= c < 256 ->
  isxdigit (hexchar_at (c / 16)) = true
  /\ isxdigit (hexchar_at (c mod 16)) = true
  /\ 16 * digit_value (hexchar_at (c / 16)) + digit_value (hexchar_at (c mod 16)) = c
  /\ 0 <= hexchar_at (c / 16) < 256
  /\ 0 <= hexchar_at (c mod 16) < 256.
Proof.
  intros Hc.
  pose proof (byte_forall
    (fun c => isxdigit (hexchar_at (c / 16)) && isxdigit (hexchar_at (c mod 16))
              && (16 * digit_value (hexchar_at (c / 16))
                  + digit_value (hexchar_at (c mod 16)) =? c)
              && (0 <=? hexchar_at (c / 16)) && (hexchar_at (c / 16) <? 256)
              && (0 <=? hexchar_at (c mod 16)) && (hexchar_at (c mod 16) <? 256))
    eq_refl c Hc) as H.
  rewrite !andb_true_iff in H.
  destruct H as ((((((H1 & H2) & H3) & H4) & H5) & H6) & H7).
  apply Z.eqb_eq in H3. apply Z.leb_le in H4, H6. apply Z.ltb_lt in H5, H7.
  repeat split; assumption.
Qed.

(** Decoding the first [n] pairs of the hex text of [b] gives the first
    [n] bytes of [b], whatever follows the text. *)
Lemma hex_text_decodes junk : forall b n,
  is_bytes b ->
  (n <= length b)%nat ->
  good_pairs n (hex_text b ++ junk) 0 = n
  /\ decoded (hex_text b ++ junk) 0 n = take n b.
Proof.
  induction b as [|c b IH]; intros n Hb Hn.
  - assert (n = O) as -> by (simpl in Hn; lia). split; reflexivity.
  - destruct n as [|n]; [split; reflexivity|].
    apply Forall_cons in Hb as [Hc Hb].
    destruct (IH n Hb ltac:(simpl in Hn; lia)) as [IHg IHd].
    destruct (hexchar_pair_byte c Hc) as (H1 & H2 & H3 & _).
    change (hex_text (c :: b) ++ junk)
      with (hexchar_at (c / 16) :: hexchar_at (c mod 16) :: (hex_text b ++ junk)).
    cbn [good_pairs take]. split.
    + rewrite pair_ok_head, H1, H2. cbn [andb].
      rewrite good_pairs_cons2, IHg. reflexivity.
    + unfold decoded. cbn [seq map]. rewrite pair_value_head, H3. f_equal.
      apply (eq_trans (decoded_cons2 _ _ _ 0 n)). exact IHd.
Qed.

Lemma is_bytes_hex_text b : is_bytes b -> is_bytes (hex_text b).
Proof.
  induction 1 as [|c b Hc Hb IH]; [constructor|].
  destruct (hexchar_pair_byte c Hc) as (_ & _ & _ & H4 & H5).
  cbn. repeat (apply Forall_cons_2; [assumption|]). exact IH.
Qed.


(** [gps_hexpack] on the string [gps_hexdump] leaves: the hex text of
    [b], a NUL, and what the buffer held behind. *)
Lemma gps_hexpack_hex_text B b junk dst :
  valid_BUFSIZ B ->
  is_bytes b ->
  is_bytes junk ->
  lenZ dst <= PTRDIFF_MAX ->
  1 <= Z.min (2 * lenZ b) B / 2 <= lenZ dst ->
  gps_hexpack B (hex_text b ++ 0 :: junk) dst (lenZ dst)
  = Done (Z.min (2 * lenZ b) B / 2,
          take (Z.to_nat (Z.min (2 * lenZ b) B / 2)) b
            ++ replicate (length dst - Z.to_nat (Z.min (2 * lenZ b) B / 2)) 0).
Proof.
  intros HB Hb Hjunk Hcap Hj.
  rewrite gps_hexpack_run; [| assumption | | assumption].
  2: { apply Forall_app. split; [apply is_bytes_hex_text, Hb|].
       apply Forall_cons_2; [lia | exact Hjunk]. }
  assert (Hp : pairs B (hex_text b ++ 0 :: junk) = Z.min (2 * lenZ b) B / 2).
  { unfold pairs. rewrite cstring_app_nul by (apply hex_text_nonzero, Hb).
    unfold lenZ. rewrite length_hex_text, Nat2Z.inj_mul. reflexivity. }
  rewrite Hp. set (j := Z.min (2 * lenZ b) B / 2) in *.
  assert (Hjb : (Z.to_nat j <= length b)%nat).
  { assert (j <= lenZ b); [|unfold lenZ in *; lia].
    unfold j. apply Z.lt_succ_r. apply Z.div_lt_upper_bound; lia. }
  rewrite decide_False by lia.
  destruct (hex_text_decodes (0 :: junk) b (Z.to_nat j) Hb Hjb) as [Hg Hdec].
  rewrite decide_True by exact Hg. rewrite Hdec. reflexivity.
Qed.

(** C2, as stated, fails on the empty buffer, whose hex text
    [gps_hexpack] rejects with -2, and, [MAX_PACKET_LENGTH] being 9216
    and [BUFSIZ] 8192, on a buffer of 4097 bytes, of whose hex text
    [gps_hexpack] reads 8192 characters only and returns 4096. *)
Lemma roundtrip_as_stated_fails :
  ~ roundtrip_as_stated 9216 8192
  /\ exists scbuf' dst',
      gps_hexdump 9216 (replicate (Z.to_nat 8197) 0) 8197
        (Some (replicate (Z.to_nat 4097) 1)) 4097 = Done scbuf'
      /\ gps_hexpack 8192 scbuf' (replicate (Z.to_nat 4097) 0) 4097
         = Done (4096, dst').
Proof.
  split.
  - intros Hclaim.
    destruct (Hclaim [] [0; 0; 0] [0]) as (scbuf' & dst' & Hdump & Hpack & _).
    + constructor.
    + repeat (apply Forall_cons_2; [lia|]). apply Forall_nil_2.
    + vm_compute. discriminate.
    + vm_compute. discriminate.
    + vm_compute. discriminate.
    + vm_compute in Hdump. injection Hdump as <-.
      vm_compute in Hpack. discriminate.
  - set (b := replicate (Z.to_nat 4097) 1).
    set (scbuf := replicate (Z.to_nat 8197) 0).
    set (dst := replicate (Z.to_nat 4097) 0).
    assert (Hlb : lenZ b = 4097)
      by (unfold lenZ, b; rewrite length_replicate; lia).
    assert (Hls : lenZ scbuf = 8197)
      by (unfold lenZ, scbuf; rewrite length_replicate; lia).
    assert (Hld : lenZ dst = 4097)
      by (unfold lenZ, dst; rewrite length_replicate; lia).
    assert (Hb : is_bytes b) by (apply Forall_replicate; lia).
    assert (Hsc : is_bytes scbuf) by (apply Forall_replicate; lia).
    enough (H : exists scbuf' dst',
               gps_hexdump 9216 scbuf (lenZ scbuf) (Some b) (lenZ b) = Done scbuf'
               /\ gps_hexpack 8192 scbuf' dst (lenZ dst) = Done (4096, dst'))
      by (rewrite Hlb, Hls, Hld in H; exact H).
    rewrite gps_hexdump_run;
      [| unfold valid_MAX_PACKET_LENGTH; lia | exact Hb
       | rewrite Hlb; unfold PTRDIFF_MAX; lia
       | rewrite Hls; unfold PTRDIFF_MAX; lia].
    assert (Hm : encoded_bytes 9216 (lenZ scbuf) b = length b).
    { unfold encoded_bytes, pairs_that_fit. rewrite Hlb, Hls.
      change (Z.min 4097 9216) with 4097.
      change ((8197 - 2 - 0) / 2) with 4097.
      unfold lenZ in Hlb. lia. }
    rewrite Hm, firstn_all.
    assert (Hj : Z.min (2 * lenZ b) 8192 / 2 = 4096) by (rewrite Hlb; reflexivity).
    eexists _, _. split; [reflexivity|].
    rewrite gps_hexpack_hex_text;
      [| unfold valid_BUFSIZ; lia | exact Hb | apply Forall_drop, Hsc
       | rewrite Hld; unfold PTRDIFF_MAX; lia | rewrite Hj, Hld; lia].
    rewrite Hj. reflexivity.
Qed.

(** C2, amended.  For every buffer [b] that is not empty, of at most
    [MAX_PACKET_LENGTH] bytes and whose hex text is at most [BUFSIZ]
    characters long, [gps_hexdump] into a destination of at least
    [2 * length b + 2] bytes stores the hex text of [b], and
    [gps_hexpack] of that string into a destination of at least
    [length b] bytes returns [length b] and leaves there the bytes of
    [b], followed by zeros. *)
Theorem hexdump_hexpack_roundtrip (M B : Z) (b scbuf dst : list Z) :
  valid_MAX_PACKET_LENGTH M ->
  valid_BUFSIZ B ->
  is_bytes b ->
  is_bytes scbuf ->
  0 < lenZ b <= M ->
  2 * lenZ b <= B ->
  2 * lenZ b + 2 <= lenZ scbuf <= PTRDIFF_MAX ->
  lenZ b <= lenZ dst <= PTRDIFF_MAX ->
  exists scbuf',
    gps_hexdump M scbuf (lenZ scbuf) (Some b) (lenZ b) = Done scbuf'
    /\ cstring scbuf' = hex_text b
    /\ gps_hexpack B scbuf' dst (lenZ dst)
       = Done (lenZ b, b ++ replicate (length dst - length b) 0).
Proof.
  intros HM HB Hb Hsc Hlen HlenB Hc Hd.
  pose proof HB as HB'. unfold valid_BUFSIZ in HB'.
  pose proof HM as HM'. unfold valid_MAX_PACKET_LENGTH in HM'.
  rewrite gps_hexdump_run; [| assumption | assumption | unfold PTRDIFF_MAX; lia | lia].
  assert (Hm : encoded_bytes M (lenZ scbuf) b = length b).
  { unfold encoded_bytes, pairs_that_fit. rewrite Z.sub_0_r.
    assert (lenZ b <= (lenZ scbuf - 2) / 2) by (apply Z.div_le_lower_bound; lia).
    unfold lenZ in *. lia. }
  rewrite Hm, firstn_all.
  set (junk := drop (S (2 * length b)) scbuf).
  assert (Htext : cstring (hex_text b ++ 0 :: junk) = hex_text b)
    by (apply cstring_app_nul, hex_text_nonzero, Hb).
  eexists. split; [reflexivity|]. split; [exact Htext|].
  assert (Hj : Z.min (2 * lenZ b) B / 2 = lenZ b).
  { rewrite Z.min_l by lia. rewrite Z.mul_comm. apply Z.div_mul. lia. }
  rewrite gps_hexpack_hex_text;
    [| assumption | assumption | apply Forall_drop, Hsc | lia | rewrite Hj; lia].
  rewrite Hj. replace (Z.to_nat (lenZ b)) with (length b) by (unfold lenZ; lia).
  rewrite firstn_all. reflexivity.
Qed.

Lemma hexdump_hexpack_roundtrip_witness :
  valid_MAX_PACKET_LENGTH 9216
  /\ valid_BUFSIZ 8192
  /\ is_bytes [0x00; 0x7f; 0x80; 0xff]
  /\ is_bytes (replicate 10 7)
  /\ 0 < lenZ [0x00; 0x7f; 0x80; 0xff] <= 9216
  /\ 2 * lenZ [0x00; 0x7f; 0x80; 0xff] <= 8192
  /\ 2 * lenZ [0x00; 0x7f; 0x80; 0xff] + 2 <= lenZ (replicate 10 7) <= PTRDIFF_MAX
  /\ lenZ [0x00; 0x7f; 0x80; 0xff] <= lenZ (replicate 5 7) <= PTRDIFF_MAX
  /\ exists scbuf',
      gps_hexdump 9216 (replicate 10 7) (lenZ (replicate 10 7))
        (Some [0x00; 0x7f; 0x80; 0xff]) (lenZ [0x00; 0x7f; 0x80; 0xff])
      = Done scbuf'
      /\ cstring scbuf' = bytes_of "007f80ff"
      /\ gps_hexpack 8192 scbuf' (replicate 5 7) (lenZ (replicate 5 7))
         = Done (4, [0x00; 0x7f; 0x80; 0xff; 0]).
Proof.
  assert (HM : valid_MAX_PACKET_LENGTH 9216) by (unfold valid_MAX_PACKET_LENGTH; lia).
  assert (HB : valid_BUFSIZ 8192) by (unfold valid_BUFSIZ; lia).
  assert (Hb : is_bytes [0x00; 0x7f; 0x80; 0xff]).
  { repeat (apply Forall_cons_2; [lia|]). apply Forall_nil_2. }
  assert (Hsc : is_bytes (replicate 10 7)).
  { apply Forall_replicate. lia. }
  assert (H1 : 0 < lenZ [0x00; 0x7f; 0x80; 0xff] <= 9216) by (vm_compute; split; [reflexivity | discriminate]).
  assert (H2 : 2 * lenZ [0x00; 0x7f; 0x80; 0xff] <= 8192) by (vm_compute; discriminate).
  assert (H3 : 2 * lenZ [0x00; 0x7f; 0x80; 0xff] + 2 <= lenZ (replicate 10 7) <= PTRDIFF_MAX)
    by (vm_compute; split; discriminate).
  assert (H4 : lenZ [0x00; 0x7f; 0x80; 0xff] <= lenZ (replicate 5 7) <= PTRDIFF_MAX)
    by (vm_compute; split; discriminate).
  split; [exact HM|]. split; [exact HB|]. split; [exact Hb|]. split; [exact Hsc|].
  split; [exact H1|]. split; [exact H2|]. split; [exact H3|]. split; [exact H4|].
  exact (hexdump_hexpack_roundtrip 9216 8192 [0x00; 0x7f; 0x80; 0xff]
           (replicate 10 7) (replicate 5 7) HM HB Hb Hsc H1 H2 H3 H4).
Defined.

(** ** [gps_visibilize] *)

Lemma store_bytes_app bs : forall pre rest,
  (length bs <= length rest)%nat ->
  store_bytes (pre ++ rest) (lenZ pre) bs = Done (pre ++ bs ++ drop (length bs) rest).
Proof.
  induction bs as [|b bs IH]; intros pre rest Hlen; [reflexivity|].
  destruct rest as [|x rest]; [simpl in Hlen; lia|].
  cbn [store_bytes]. rewrite store_app. cbn [mbind outcome_bind].
  replace (lenZ pre + 1) with (lenZ (pre ++ [b])) by (rewrite lenZ_app; reflexivity).
  rewrite (cons_middle b pre rest), app_assoc.
  rewrite IH by (simpl in Hlen; lia).
  rewrite <- app_assoc. reflexivity.
Qed.

Lemma snprintf_fits pre x rest size text :
  lenZ text < size ->
  (length text <= length rest)%nat ->
  snprintf (pre ++ x :: rest) (lenZ pre) size text
  = Done (lenZ text, (pre ++ text) ++ 0 :: drop (length text) rest).
Proof.
  intros Hsize Hrest. pose proof (lenZ_nonneg text) as Ht.
  unfold snprintf. destruct (Z.eqb_spec size 0) as [|_]; [lia|].
  rewrite take_ge by (unfold lenZ in *; lia).
  rewrite store_bytes_app by (rewrite length_app; simpl; lia).
  cbn [mbind outcome_bind]. rewrite length_app, Nat.add_1_r. cbn [length drop].
  rewrite <- !app_assoc. reflexivity.
Qed.

Lemma visible_byte c :
  0 <= c < 256 ->
  uchar (char_to_int c) = c /\ Z.land 255 (uint (char_to_int c)) = c.
Proof.
  intros Hc.
  pose proof (byte_forall
    (fun c => (uchar (char_to_int c) =? c) && (Z.land 255 (uint (char_to_int c)) =? c))
    eq_refl c Hc) as H.
  apply andb_true_iff in H as [H1 H2]. apply Z.eqb_eq in H1, H2. split; assumption.
Qed.

Lemma length_visible c : length (visible c) = if isprint c then 1%nat else 4%nat.
Proof. unfold visible. destruct (isprint c); reflexivity. Qed.

Lemma visible_nonzero c : 0 <= c < 256 -> Forall (fun x => x <> 0) (visible c).
Proof.
  intros Hc. unfold visible. destruct (isprint c) eqn:E.
  - unfold isprint in E. apply andb_true_iff in E as [E _]. apply Z.leb_le in E.
    apply Forall_cons_2; [lia | apply Forall_nil_2].
  - destruct (hexchar_nonzero c Hc) as [H1 H2].
    cbn. repeat (apply Forall_cons_2; [first [assumption | discriminate]|]).
    apply Forall_nil_2.
Qed.

Lemma visible_text_nonzero c : forall src next,
  is_bytes src -> Forall (fun x => x <> 0) (visible_text c next src).
Proof.
  induction src as [|b src IH]; intros next Hb; [constructor|].
  apply Forall_cons in Hb as [Hb Hsrc]. cbn [visible_text].
  destruct (next + 6 <? c); [|constructor].
  apply Forall_app. split; [apply visible_nonzero, Hb | apply IH, Hsrc].
Qed.

(** The loop of [gps_visibilize], the source being split into the bytes
    seen and those to do, the destination into the text written, its
    terminator and the rest. *)
Lemma visibilize_loop_spec c :
  1 <= c <= PTRDIFF_MAX ->
  forall n seen todo pre rest,
    is_bytes todo ->
    (n <= length todo)%nat ->
    lenZ pre + 1 + lenZ rest = c ->
    visibilize_loop n c (seen ++ todo) (lenZ seen) (lenZ pre) (pre ++ 0 :: rest)
    = Done (pre ++ visible_text c (lenZ pre) (take n todo)
                ++ 0 :: drop (length (visible_text c (lenZ pre) (take n todo))) rest).
Proof.
  intros Hc. unfold PTRDIFF_MAX in Hc.
  induction n as [|n IH]; intros seen todo pre rest Hb Hn Hlen; [reflexivity|].
  destruct todo as [|b todo]; [simpl in Hn; lia|].
  apply Forall_cons in Hb as [Hb Htodo].
  pose proof (lenZ_nonneg pre) as Hpre. pose proof (lenZ_nonneg rest) as Hrest.
  cbn [visibilize_loop take visible_text].
  rewrite (size_t_small (lenZ pre + 6)) by lia.
  destruct (Z.ltb_spec (lenZ pre + 6) c) as [Hfit|Hfull]; [|reflexivity].
  rewrite load_app. cbn [mbind outcome_bind].
  destruct (visible_byte b Hb) as [-> ->].
  assert (Hv : (if isprint b then snprintf (pre ++ 0 :: rest) (lenZ pre) 2 [b]
                else snprintf (pre ++ 0 :: rest) (lenZ pre) 6
                       (bytes_of "\x" ++ fmt_02x b))
               = Done (lenZ (visible b),
                       (pre ++ visible b) ++ 0 :: drop (length (visible b)) rest)).
  { pose proof (length_visible b) as Hl. unfold visible in *.
    destruct (isprint b); apply snprintf_fits;
      unfold lenZ in *; rewrite ?Hl; cbn [length]; lia. }
  rewrite Hv. clear Hv. cbn [mbind outcome_bind].
  pose proof (length_visible b) as Hl.
  assert (Hl' : 1 <= lenZ (visible b) <= 4)
    by (unfold lenZ; rewrite Hl; destruct (isprint b); lia).
  destruct (Z.gtb_spec 1 (lenZ (visible b))) as [Hbad|_]; [lia|].
  rewrite size_t_small by lia.
  rewrite <- lenZ_app.
  replace (seen ++ b :: todo) with ((seen ++ [b]) ++ todo)
    by (rewrite <- app_assoc; reflexivity).
  replace (lenZ seen + 1) with (lenZ (seen ++ [b]))
    by (rewrite lenZ_app; reflexivity).
  rewrite IH; [| exact Htodo | simpl in Hn; lia |].
  - rewrite lenZ_app, <- !app_assoc, length_app, drop_drop. reflexivity.
  - rewrite lenZ_app. unfold lenZ in *. rewrite length_drop. lia.
Qed.

(** What a call of [gps_visibilize] does on a destination of the
    declared capacity, at least 1, and a source of at least [inlen]
    bytes. *)
Lemma gps_visibilize_run outbuf inbuf inlen :
  1 <= lenZ outbuf <= PTRDIFF_MAX ->
  is_bytes inbuf ->
  0 <= inlen <= lenZ inbuf ->
  gps_visibilize outbuf (lenZ outbuf) inbuf inlen
  = Done (visible_text (lenZ outbuf) 0 (take (Z.to_nat inlen) inbuf)
            ++ 0 :: drop (S (length (visible_text (lenZ outbuf) 0
                                       (take (Z.to_nat inlen) inbuf)))) outbuf).
Proof.
  intros Hc Hb Hin. unfold gps_visibilize.
  destruct outbuf as [|x rest]; [unfold lenZ in Hc; simpl in Hc; lia|].
  pose proof (store_app [] x rest 0) as Hst.
  cbn [app] in Hst. change (lenZ []) with 0 in Hst.
  rewrite Hst. clear Hst. cbn [mbind outcome_bind].
  pose proof (visibilize_loop_spec (lenZ (x :: rest)) Hc
                (Z.to_nat inlen) [] inbuf [] rest Hb) as Hloop.
  cbn [app] in Hloop. change (lenZ []) with 0 in Hloop.
  rewrite Hloop; [reflexivity | unfold lenZ in *; lia | rewrite lenZ_cons; lia].
Qed.

Lemma visible_text_bound c : forall src next,
  0 <= next < c -> next + lenZ (visible_text c next src) < c.
Proof.
  induction src as [|b src IH]; intros next Hnext.
  - change (lenZ (visible_text c next [])) with 0. lia.
  - cbn [visible_text]. destruct (Z.ltb_spec (next + 6) c) as [Hfit|Hfull].
    + rewrite lenZ_app.
      assert (Hl : 1 <= lenZ (visible b) <= 4)
        by (unfold lenZ; rewrite length_visible; destruct (isprint b); lia).
      specialize (IH (next + lenZ (visible b)) ltac:(lia)). lia.
    + change (lenZ []) with 0. lia.
Qed.

(** [visible_text] is the text of the first [k] source bytes, where [k]
    is the first index at which the source ends or [next + 6] reaches
    the capacity. *)
Lemma visible_text_stops c : forall src next,
  exists k : nat,
    (k <= length src)%nat
    /\ visible_text c next src = flat_map visible (take k src)
    /\ (forall k', (k' < k)%nat ->
                   next + lenZ (flat_map visible (take k' src)) + 6 < c)
    /\ (k = length src \/ c <= next + lenZ (flat_map visible (take k src)) + 6).
Proof.
  induction src as [|b src IH]; intros next.
  - exists O. repeat split; [lia | intros; lia | left; reflexivity].
  - cbn [visible_text]. destruct (Z.ltb_spec (next + 6) c) as [Hfit|Hfull].
    + destruct (IH (next + lenZ (visible b))) as (k & Hk & Htext & Hbefore & Hstop).
      exists (S k). cbn [take flat_map length]. split; [lia|]. split; [|split].
      * rewrite Htext. reflexivity.
      * intros [|k'] Hk'.
        -- cbn [take flat_map]. change (lenZ []) with 0. lia.
        -- cbn [take flat_map]. rewrite lenZ_app.
           specialize (Hbefore k' ltac:(lia)). lia.
      * rewrite lenZ_app. destruct Hstop as [->|Hstop]; [left; reflexivity | right; lia].
    + exists O. cbn [take flat_map]. change (lenZ []) with 0.
      split; [lia|]. split; [reflexivity|]. split; [intros; lia | right; lia].
Qed.

(** C7, as stated, fails on both counts.  With capacity 10 the source
    ["ABCDEFGH"] gives ["ABCD"], though four more characters fit in
    [capacity - 1] until ["ABCDEF"] is written; and a tab, which
    [gpsd_packetdump] takes as printable, is rendered as [\x09]. *)
Lemma visibilize_as_stated_fails :
  ~ visibilize_as_stated
  /\ (exists outbuf',
        gps_visibilize (replicate 10 0) 10 (bytes_of "ABCDEFGH") 8 = Done outbuf'
        /\ cstring outbuf' = bytes_of "ABCD"
        /\ visibilize_as_specified 10 0 (bytes_of "ABCDEFGH") = bytes_of "ABCDEF")
  /\ (exists outbuf',
        gps_visibilize (replicate 64 0) 64 [9] 1 = Done outbuf'
        /\ cstring outbuf' = bytes_of "\x09"
        /\ visibilize_as_specified 64 0 [9] = [9]).
Proof.
  split; [|split].
  - intros Hclaim.
    assert (Hb : is_bytes (bytes_of "ABCDEFGH")).
    { unfold bytes_of. cbn. repeat (apply Forall_cons_2; [lia|]). apply Forall_nil_2. }
    specialize (Hclaim (replicate 10 0) (bytes_of "ABCDEFGH")
                       (bytes_of "ABCD" ++ replicate 6 0) Hb
                       ltac:(vm_compute; discriminate) eq_refl).
    vm_compute in Hclaim. discriminate.
  - eexists. split; [vm_compute; reflexivity|]. split; reflexivity.
  - eexists. split; [vm_compute; reflexivity|]. split; reflexivity.
Qed.

(** C7, amended.  On a destination of capacity [c], at least 1,
    [gps_visibilize] stores, for the first [k] source bytes, the byte
    itself when [isprint] accepts it (the test of [gpsd_packetdump]
    also accepts white space) and else the four characters [\xHH] with
    two lowercase hex digits, then a NUL.  [k] is the first index at
    which the source ends or the characters written so far plus 6 reach
    [c]: the iteration stops exactly there.  With capacity 64 the source
    [00 41 ff] gives ["\x00A\xff"]. *)
Theorem gps_visibilize_text (outbuf inbuf : list Z) (inlen : Z) :
  1 <= lenZ outbuf <= PTRDIFF_MAX ->
  is_bytes inbuf ->
  0 <= inlen <= lenZ inbuf ->
  (exists outbuf' (k : nat),
      gps_visibilize outbuf (lenZ outbuf) inbuf inlen = Done outbuf'
      /\ lenZ outbuf' = lenZ outbuf
      /\ cstring outbuf' = flat_map visible (take k inbuf)
      /\ outbuf' !! length (cstring outbuf') = Some 0
      /\ Z.of_nat k <= inlen
      /\ (forall k', (k' < k)%nat ->
                     lenZ (flat_map visible (take k' inbuf)) + 6 < lenZ outbuf)
      /\ (Z.of_nat k = inlen
          \/ lenZ outbuf <= lenZ (flat_map visible (take k inbuf)) + 6))
  /\ (forall c, isprint c = true -> visible c = [c])
  /\ (forall c, isprint c = false ->
                visible c = [ch "\"; ch "x"; hexchar_at (c / 16); hexchar_at (c mod 16)])
  /\ (forall d, lenZ d = 64 ->
      exists d', gps_visibilize d 64 [0x00; 0x41; 0xff] 3 = Done d'
                 /\ cstring d' = bytes_of "\x00A\xff").
Proof.
  intros Hc Hb Hin. split; [|split; [|split]].
  - rewrite gps_visibilize_run by assumption.
    set (src := take (Z.to_nat inlen) inbuf).
    assert (Hsrc : length src = Z.to_nat inlen)
      by (unfold src; rewrite length_take; unfold lenZ in *; lia).
    destruct (visible_text_stops (lenZ outbuf) src 0)
      as (k & Hk & Htext & Hbefore & Hstop).
    assert (Htake : forall k', (k' <= k)%nat -> take k' src = take k' inbuf).
    { intros k' Hk'. unfold src. rewrite take_take. f_equal. lia. }
    pose proof (visible_text_bound (lenZ outbuf) src 0 ltac:(lia)) as Hbound.
    set (text := visible_text (lenZ outbuf) 0 src) in *.
    assert (Hnz : Forall (fun x => x <> 0) text)
      by (apply visible_text_nonzero, Forall_take, Hb).
    exists (text ++ 0 :: drop (S (length text)) outbuf), k.
    rewrite (cstring_app_nul text) by exact Hnz.
    split; [reflexivity|]. split; [|split; [|split; [|split; [|split]]]].
    + unfold lenZ in *. rewrite length_app. cbn [length]. rewrite length_drop. lia.
    + rewrite Htext, Htake by lia. reflexivity.
    + apply list_lookup_middle. reflexivity.
    + lia.
    + intros k' Hk'. rewrite <- Htake by lia.
      specialize (Hbefore k' Hk'). lia.
    + rewrite <- Htake by lia. destruct Hstop as [->|Hstop]; [left; lia | right; lia].
  - intros c Hp. unfold visible. rewrite Hp. reflexivity.
  - intros c Hp. unfold visible. rewrite Hp. reflexivity.
  - intros d Hd. rewrite <- Hd.
    rewrite (gps_visibilize_run d [0x00; 0x41; 0xff] 3);
      [| rewrite Hd; unfold PTRDIFF_MAX; lia
       | repeat (apply Forall_cons_2; [lia|]); apply Forall_nil_2
       | vm_compute; split; discriminate].
    eexists. split; [reflexivity|]. rewrite Hd.
    apply (cstring_app_nul (bytes_of "\x00A\xff")).
    vm_compute. repeat (apply Forall_cons_2; [discriminate|]). apply Forall_nil_2.
Qed.

Lemma gps_visibilize_text_witness :
  1 <= lenZ (replicate 64 7) <= PTRDIFF_MAX
  /\ is_bytes [0x00; 0x41; 0xff]
  /\ 0 <= 3 <= lenZ [0x00; 0x41; 0xff]
  /\ exists d', gps_visibilize (replicate 64 7) 64 [0x00; 0x41; 0xff] 3 = Done d'
                /\ cstring d' = bytes_of "\x00A\xff".
Proof.
  assert (Hc : 1 <= lenZ (replicate 64 7) <= PTRDIFF_MAX)
    by (vm_compute; split; discriminate).
  assert (Hb : is_bytes [0x00; 0x41; 0xff]).
  { repeat (apply Forall_cons_2; [lia|]). apply Forall_nil_2. }
  assert (Hin : 0 <= 3 <= lenZ [0x00; 0x41; 0xff]) by (vm_compute; split; discriminate).
  split; [exact Hc|]. split; [exact Hb|]. split; [exact Hin|].
  destruct (gps_visibilize_text (replicate 64 7) [0x00; 0x41; 0xff] 3 Hc Hb Hin)
    as (_ & _ & _ & Hex).
  exact (Hex (replicate 64 7) eq_refl).
Defined.

(** ** Stores stay within the destination *)

Lemma lenZ_insert buf i v : lenZ (<[i := v]> buf) = lenZ buf.
Proof. unfold lenZ. rewrite length_insert. reflexivity. Qed.

Lemma store_inside buf i v :
  0 <= i < lenZ buf -> store buf i v = Done (<[Z.to_nat i := v]> buf).
Proof. intros Hi. unfold store. rewrite decide_True by exact Hi. reflexivity. Qed.

Lemma store_bytes_inside bs : forall buf pos,
  0 <= pos ->
  pos + lenZ bs <= lenZ buf ->
  exists buf', store_bytes buf pos bs = Done buf' /\ lenZ buf' = lenZ buf.
Proof.
  induction bs as [|b bs IH]; intros buf pos Hpos Hfit; [eexists; split; reflexivity|].
  rewrite lenZ_cons in Hfit. pose proof (lenZ_nonneg bs).
  cbn [store_bytes]. rewrite store_inside by lia. cbn [mbind outcome_bind].
  destruct (IH (<[Z.to_nat pos := b]> buf) (pos + 1)) as (buf' & Hrun & Hlen);
    [lia | rewrite lenZ_insert; lia |].
  exists buf'. split; [exact Hrun|]. rewrite Hlen. apply lenZ_insert.
Qed.

Lemma snprintf_inside buf pos size text :
  0 <= pos ->
  lenZ text < size ->
  pos + lenZ text + 1 <= lenZ buf ->
  exists buf', snprintf buf pos size text = Done (lenZ text, buf')
               /\ lenZ buf' = lenZ buf.
Proof.
  intros Hpos Hsize Hfit. pose proof (lenZ_nonneg text) as Ht.
  unfold snprintf. destruct (Z.eqb_spec size 0) as [|_]; [lia|].
  rewrite take_ge by (unfold lenZ in *; lia).
  destruct (store_bytes_inside (text ++ [0]) buf pos Hpos) as (buf' & Hrun & Hlen).
  { rewrite lenZ_app. change (lenZ [0]) with 1. lia. }
  exists buf'. rewrite Hrun. split; [reflexivity | exact Hlen].
Qed.

Lemma hexdump_loop_in_bounds c :
  3 <= c <= PTRDIFF_MAX ->
  forall n ibuf i j scbuf,
    lenZ scbuf = c ->
    0 <= j <= c - 2 ->
    match hexdump_loop n c ibuf i j scbuf with
    | Done (j', scbuf') => lenZ scbuf' = c /\ 0 <= j' <= c - 2
    | Fault (BadLoad _) => True
    | Fault (BadStore _) => False
    end.
Proof.
  intros Hc. unfold PTRDIFF_MAX in Hc.
  induction n as [|n IH]; intros ibuf i j scbuf Hlen Hj; [split; assumption|].
  cbn [hexdump_loop]. rewrite (size_t_small (c - 3)) by lia.
  destruct (Z.ltb_spec j (c - 3)) as [Hfit|Hfull]; [|split; assumption].
  unfold load. destruct (decide (0 <= i)); [|exact I].
  destruct (ibuf !! Z.to_nat i) as [b|]; [|exact I].
  cbn [mbind outcome_bind].
  rewrite store_inside by lia. cbn [mbind outcome_bind].
  rewrite (size_t_small (j + 1)), (size_t_small (j + 2)) by lia.
  rewrite store_inside by (rewrite lenZ_insert; lia). cbn [mbind outcome_bind].
  apply IH; [rewrite !lenZ_insert; exact Hlen | lia].
Qed.

Lemma gps_hexdump_in_bounds M scbuf binbuf binbuflen :
  3 <= lenZ scbuf <= PTRDIFF_MAX ->
  keeps_capacity (lenZ scbuf) (gps_hexdump M scbuf (lenZ scbuf) binbuf binbuflen).
Proof.
  intros Hc. unfold gps_hexdump.
  assert (Hnul : keeps_capacity (lenZ scbuf) (store scbuf 0 0)).
  { rewrite store_inside by lia. apply lenZ_insert. }
  destruct binbuf as [ibuf|]; [|exact Hnul].
  destruct (binbuflen =? 0); [exact Hnul|].
  pose proof (hexdump_loop_in_bounds (lenZ scbuf) Hc
                (Z.to_nat (size_t (if binbuflen >? size_t M then M else binbuflen)))
                ibuf 0 0 scbuf eq_refl ltac:(lia)) as Hloop.
  destruct (hexdump_loop _ _ _ _ _ _) as [[j scbuf1]|[k|k]];
    [| exact I | contradiction].
  destruct Hloop as [Hlen Hj]. cbn [mbind outcome_bind].
  rewrite store_inside by lia. cbn. rewrite lenZ_insert. exact Hlen.
Qed.

Lemma visibilize_loop_in_bounds c :
  1 <= c <= PTRDIFF_MAX ->
  forall n inbuf sp next outbuf,
    lenZ outbuf = c ->
    0 <= next <= c ->
    keeps_capacity c (visibilize_loop n c inbuf sp next outbuf).
Proof.
  intros Hc. unfold PTRDIFF_MAX in Hc.
  induction n as [|n IH]; intros inbuf sp next outbuf Hlen Hnext; [exact Hlen|].
  cbn [visibilize_loop]. rewrite (size_t_small (next + 6)) by lia.
  destruct (Z.ltb_spec (next + 6) c) as [Hfit|Hfull]; [|exact Hlen].
  unfold load. destruct (decide (0 <= sp)); [|exact I].
  destruct (inbuf !! Z.to_nat sp) as [b|]; [|exact I].
  cbn [mbind outcome_bind].
  set (text := bytes_of "\x" ++ fmt_02x (Z.land 255 (uint (char_to_int b)))).
  assert (Hprint : exists outbuf1 ret,
            (if isprint (uchar (char_to_int b))
             then snprintf outbuf next 2 [uchar (char_to_int b)]
             else snprintf outbuf next 6 text) = Done (ret, outbuf1)
            /\ lenZ outbuf1 = c /\ 1 <= ret <= 4).
  { destruct (isprint (uchar (char_to_int b))).
    - destruct (snprintf_inside outbuf next 2 [uchar (char_to_int b)])
        as (outbuf1 & Hrun & Hlen1);
        [lia | change (lenZ [uchar (char_to_int b)]) with 1; lia
         | change (lenZ [uchar (char_to_int b)]) with 1; lia |].
      exists outbuf1, 1. split; [exact Hrun|]. split; [lia|lia].
    - destruct (snprintf_inside outbuf next 6 text) as (outbuf1 & Hrun & Hlen1);
        [lia | change (lenZ text) with 4; lia | change (lenZ text) with 4; lia |].
      exists outbuf1, 4. split; [exact Hrun|]. split; [lia|lia]. }
  destruct Hprint as (outbuf1 & ret & -> & Hlen1 & Hret).
  cbn [mbind outcome_bind].
  destruct (Z.gtb_spec 1 ret) as [Hbad|_]; [lia|].
  rewrite size_t_small by lia.
  apply IH; [exact Hlen1 | lia].
Qed.

Lemma gps_visibilize_in_bounds outbuf inbuf inlen :
  1 <= lenZ outbuf <= PTRDIFF_MAX ->
  keeps_capacity (lenZ outbuf) (gps_visibilize outbuf (lenZ outbuf) inbuf inlen).
Proof.
  intros Hc. unfold gps_visibilize.
  rewrite store_inside by lia. cbn [mbind outcome_bind].
  apply visibilize_loop_in_bounds; [exact Hc | apply lenZ_insert | lia].
Qed.

Lemma keeps_capacity_in_bounds c r : keeps_capacity c r -> in_bounds r.
Proof. intros H i ->. exact H. Qed.

(** C3, as stated, fails for the capacities 0, 1 and 2: with capacity 0
    both functions store their NUL at index 0, and with capacity 1 or 2
    [gps_hexdump] stores the hex digits of a one-byte source and the
    NUL at the indices 0, 1 and 2. *)
Lemma never_past_capacity_fails :
  ~ never_past_capacity_as_stated 9216
  /\ gps_hexdump 9216 [] 0 None 0 = Fault (BadStore 0)
  /\ gps_visibilize [] 0 [] 0 = Fault (BadStore 0)
  /\ gps_hexdump 9216 [7] 1 (Some [0xab]) 1 = Fault (BadStore 1)
  /\ gps_hexdump 9216 [7; 7] 2 (Some [0xab]) 1 = Fault (BadStore 2).
Proof.
  split; [|repeat split].
  intros Hclaim.
  destruct (Hclaim [] None 0 [] [] 0) as [Hdump _].
  exact (Hdump 0 eq_refl).
Qed.

(** C3, amended.  [gps_hexdump] with a capacity of at least 3, whatever
    the source and its length, and with a capacity of at least 1 when
    the source is NULL or of length 0, and [gps_visibilize] with a
    capacity of at least 1, whatever the source and its length, store
    at no index outside the destination: every byte they store, the NUL
    included, is at an index below the capacity. *)
Theorem truncation_safety (M : Z) (scbuf scbuf1 outbuf b inbuf : list Z)
    (binbuf : option (list Z)) (binbuflen inlen : Z) :
  3 <= lenZ scbuf <= PTRDIFF_MAX ->
  1 <= lenZ scbuf1 ->
  1 <= lenZ outbuf <= PTRDIFF_MAX ->
  in_bounds (gps_hexdump M scbuf (lenZ scbuf) binbuf binbuflen)
  /\ in_bounds (gps_hexdump M scbuf1 (lenZ scbuf1) None binbuflen)
  /\ in_bounds (gps_hexdump M scbuf1 (lenZ scbuf1) (Some b) 0)
  /\ in_bounds (gps_visibilize outbuf (lenZ outbuf) inbuf inlen).
Proof.
  intros Hc Hc1 Hco.
  assert (Hnul : in_bounds (store scbuf1 0 0)).
  { rewrite store_inside by lia. intros i. discriminate. }
  split; [|split; [|split]].
  - apply (keeps_capacity_in_bounds (lenZ scbuf)), gps_hexdump_in_bounds, Hc.
  - exact Hnul.
  - exact Hnul.
  - apply (keeps_capacity_in_bounds (lenZ outbuf)), gps_visibilize_in_bounds, Hco.
Qed.

Lemma truncation_safety_witness :
  3 <= lenZ [7; 7; 7] <= PTRDIFF_MAX
  /\ 1 <= lenZ [7]
  /\ 1 <= lenZ [7] <= PTRDIFF_MAX
  /\ in_bounds (gps_hexdump 9216 [7; 7; 7] (lenZ [7; 7; 7]) (Some [0xab; 0xcd]) 2)
  /\ in_bounds (gps_hexdump 9216 [7] (lenZ [7]) None 2)
  /\ in_bounds (gps_hexdump 9216 [7] (lenZ [7]) (Some [0xab; 0xcd]) 0)
  /\ in_bounds (gps_visibilize [7] (lenZ [7]) [0xab; 0xcd] 2).
Proof.
  assert (Hc : 3 <= lenZ [7; 7; 7] <= PTRDIFF_MAX) by (vm_compute; split; discriminate).
  assert (Hc1 : 1 <= lenZ [7]) by (vm_compute; discriminate).
  assert (Hco : 1 <= lenZ [7] <= PTRDIFF_MAX) by (vm_compute; split; discriminate).
  split; [exact Hc|]. split; [exact Hc1|]. split; [exact Hco|].
  exact (truncation_safety 9216 [7; 7; 7] [7] [7] [0xab; 0xcd] [0xab; 0xcd]
           (Some [0xab; 0xcd]) 2 2 Hc Hc1 Hco).
Defined.

(** * Further properties *)

(** ** [gpsd_packetdump] *)

Lemma packetdump_scan_spec : forall n seen todo,
  (n <= length todo)%nat ->
  packetdump_scan n (seen ++ todo) (lenZ seen)
  = Done (forallb printable_or_space (take n todo)).
Proof.
  induction n as [|n IH]; intros seen todo Hn; [reflexivity|].
  destruct todo as [|b todo]; [simpl in Hn; lia|].
  cbn [packetdump_scan take forallb]. rewrite load_app. cbn [mbind outcome_bind].
  unfold printable_or_space at 1. rewrite <- negb_orb.
  destruct (isprint b || isspace b); [|reflexivity]. cbn [negb andb].
  replace (seen ++ b :: todo) with ((seen ++ [b]) ++ todo)
    by (rewrite <- app_assoc; reflexivity).
  replace (lenZ seen + 1) with (lenZ (seen ++ [b]))
    by (rewrite lenZ_app; reflexivity).
  apply IH. simpl in Hn. lia.
Qed.

Lemma packetdump_scan_run b n :
  0 <= n <= lenZ b ->
  packetdump_scan (Z.to_nat n) b 0
  = Done (forallb printable_or_space (take (Z.to_nat n) b)).
Proof.
  intros Hn. apply (packetdump_scan_spec (Z.to_nat n) [] b).
  unfold lenZ in Hn. lia.
Qed.

Lemma printable_or_space_nonzero l :
  forallb printable_or_space l = true -> Forall (fun c => c <> 0) l.
Proof.
  induction l as [|c l IH]; [constructor|].
  cbn [forallb]. intros H. apply andb_true_iff in H as [Hc Hl].
  apply Forall_cons_2; [|apply IH, Hl].
  unfold printable_or_space, isprint, isspace in Hc.
  intros ->. discriminate Hc.
Qed.

(** X1.  When each of the [n] source bytes is printable or white space,
    [gpsd_packetdump] returns the source pointer itself and the
    destination is not used: this holds for every destination and
    declared capacity, a capacity of 0 included.  The string at that
    pointer is those [n] bytes when the source has a NUL behind
    them. *)
Theorem gpsd_packetdump_printable (M : Z) (scbuf b : list Z) (scbuflen n : Z) :
  0 <= n <= lenZ b ->
  forallb printable_or_space (take (Z.to_nat n) b) = true ->
  gpsd_packetdump M scbuf scbuflen (Some b) n = Done DumpBinbuf
  /\ (b !! Z.to_nat n = Some 0 ->
      dump_text (Some b) n DumpBinbuf = take (Z.to_nat n) b).
Proof.
  intros Hn Hall. unfold gpsd_packetdump.
  rewrite packetdump_scan_run by exact Hn. rewrite Hall.
  split; [reflexivity|]. intros Hnul.
  cbn [dump_text].
  rewrite <- (take_drop_middle b (Z.to_nat n) 0 Hnul) at 1.
  apply cstring_app_nul, printable_or_space_nonzero, Hall.
Qed.

Lemma gpsd_packetdump_printable_witness :
  0 <= 5 <= lenZ (bytes_of "GPS" ++ [9; 10; 0; 88])
  /\ forallb printable_or_space
       (take (Z.to_nat 5) (bytes_of "GPS" ++ [9; 10; 0; 88])) = true
  /\ (bytes_of "GPS" ++ [9; 10; 0; 88]) !! Z.to_nat 5 = Some 0
  /\ gpsd_packetdump 9216 [] 0 (Some (bytes_of "GPS" ++ [9; 10; 0; 88])) 5
     = Done DumpBinbuf
  /\ dump_text (Some (bytes_of "GPS" ++ [9; 10; 0; 88])) 5 DumpBinbuf
     = bytes_of "GPS" ++ [9; 10].
Proof.
  assert (Hn : 0 <= 5 <= lenZ (bytes_of "GPS" ++ [9; 10; 0; 88]))
    by (vm_compute; split; discriminate).
  destruct (gpsd_packetdump_printable 9216 [] (bytes_of "GPS" ++ [9; 10; 0; 88]) 0 5
              Hn eq_refl) as [Hrun Htext].
  split; [exact Hn|]. split; [reflexivity|]. split; [reflexivity|].
  split; [exact Hrun | exact (Htext eq_refl)].
Defined.

(** X2.  When one of the source bytes is neither printable nor white
    space, [gpsd_packetdump] returns the destination, which
    [gps_hexdump] has filled: its text is the hex text of the leading
    source bytes that fit (capacity at least 3). *)
Theorem gpsd_packetdump_binary (M : Z) (scbuf b : list Z) :
  valid_MAX_PACKET_LENGTH M ->
  is_bytes b ->
  lenZ b <= PTRDIFF_MAX ->
  3 <= lenZ scbuf <= PTRDIFF_MAX ->
  forallb printable_or_space b = false ->
  exists scbuf',
    gpsd_packetdump M scbuf (lenZ scbuf) (Some b) (lenZ b) = Done (DumpScbuf scbuf')
    /\ gps_hexdump M scbuf (lenZ scbuf) (Some b) (lenZ b) = Done scbuf'
    /\ dump_text (Some b) (lenZ b) (DumpScbuf scbuf')
       = hex_text (take (encoded_bytes M (lenZ scbuf) b) b).
Proof.
  intros HM Hb Hlen Hc Hbin. unfold gpsd_packetdump.
  rewrite packetdump_scan_run by (pose proof (lenZ_nonneg b); lia).
  replace (Z.to_nat (lenZ b)) with (length b) by (unfold lenZ; lia).
  rewrite firstn_all, Hbin. rewrite gps_hexdump_run by assumption.
  eexists. split; [reflexivity|]. split; [reflexivity|].
  apply cstring_app_nul, hex_text_nonzero, Forall_take, Hb.
Qed.

Lemma gpsd_packetdump_binary_witness :
  valid_MAX_PACKET_LENGTH 9216
  /\ is_bytes [0x47; 0x01]
  /\ 3 <= lenZ (replicate 8 7) <= PTRDIFF_MAX
  /\ forallb printable_or_space [0x47; 0x01] = false
  /\ exists scbuf',
      gpsd_packetdump 9216 (replicate 8 7) (lenZ (replicate 8 7))
        (Some [0x47; 0x01]) (lenZ [0x47; 0x01]) = Done (DumpScbuf scbuf')
      /\ cstring scbuf' = bytes_of "4701".
Proof.
  assert (HM : valid_MAX_PACKET_LENGTH 9216) by (unfold valid_MAX_PACKET_LENGTH; lia).
  assert (Hb : is_bytes [0x47; 0x01]).
  { repeat (apply Forall_cons_2; [lia|]). apply Forall_nil_2. }
  assert (Hl : lenZ [0x47; 0x01] <= PTRDIFF_MAX) by (vm_compute; discriminate).
  assert (Hc : 3 <= lenZ (replicate 8 7) <= PTRDIFF_MAX)
    by (vm_compute; split; discriminate).
  split; [exact HM|]. split; [exact Hb|]. split; [exact Hc|]. split; [reflexivity|].
  destruct (gpsd_packetdump_binary 9216 (replicate 8 7) [0x47; 0x01] HM Hb Hl Hc eq_refl)
    as (scbuf' & Hrun & _ & Htext).
  exists scbuf'. split; [exact Hrun | exact Htext].
Defined.

(** ** [gps_hexdump] *)

Lemma hex_text_lower b :
  is_bytes b -> Forall (fun c => is_lower_hex c = true) (hex_text b).
Proof.
  induction 1 as [|c b Hc Hb IH]; [constructor|].
  pose proof (byte_forall
    (fun c => is_lower_hex (hexchar_at (c / 16)) && is_lower_hex (hexchar_at (c mod 16)))
    eq_refl c Hc) as H.
  apply andb_true_iff in H as [H1 H2].
  cbn. repeat (apply Forall_cons_2; [assumption|]). exact IH.
Qed.

(** X3.  The text [gps_hexdump] stores holds lowercase hex digits only,
    and the bytes of the destination behind its terminator are left as
    they were (capacity at least 3). *)
Theorem gps_hexdump_lowercase (M : Z) (scbuf b : list Z) :
  valid_MAX_PACKET_LENGTH M ->
  is_bytes b ->
  lenZ b <= PTRDIFF_MAX ->
  3 <= lenZ scbuf <= PTRDIFF_MAX ->
  exists scbuf',
    gps_hexdump M scbuf (lenZ scbuf) (Some b) (lenZ b) = Done scbuf'
    /\ Forall (fun c => is_lower_hex c = true) (cstring scbuf')
    /\ drop (S (length (cstring scbuf'))) scbuf'
       = drop (S (length (cstring scbuf'))) scbuf.
Proof.
  intros HM Hb Hlen Hc. rewrite gps_hexdump_run by assumption.
  pose proof (encoded_bytes_le M (lenZ scbuf) b) as Hm.
  set (m := encoded_bytes M (lenZ scbuf) b) in *.
  eexists. split; [reflexivity|].
  rewrite cstring_app_nul by (apply hex_text_nonzero, Forall_take, Hb).
  split; [apply hex_text_lower, Forall_take, Hb|].
  replace (S (length (hex_text (take m b))))
    with (length (hex_text (take m b)) + 1)%nat by lia.
  rewrite drop_app_add. cbn [drop].
  rewrite length_hex_text, length_take.
  replace (2 * (m `min` length b) + 1)%nat with (S (2 * m)) by lia.
  reflexivity.
Qed.

Lemma gps_hexdump_lowercase_witness :
  valid_MAX_PACKET_LENGTH 9216
  /\ is_bytes [0xAB; 0xCD]
  /\ lenZ [0xAB; 0xCD] <= PTRDIFF_MAX
  /\ 3 <= lenZ (replicate 8 7) <= PTRDIFF_MAX
  /\ exists scbuf',
      gps_hexdump 9216 (replicate 8 7) (lenZ (replicate 8 7))
        (Some [0xAB; 0xCD]) (lenZ [0xAB; 0xCD]) = Done scbuf'
      /\ Forall (fun c => is_lower_hex c = true) (cstring scbuf')
      /\ drop (S (length (cstring scbuf'))) scbuf'
         = drop (S (length (cstring scbuf'))) (replicate 8 7).
Proof.
  assert (HM : valid_MAX_PACKET_LENGTH 9216) by (unfold valid_MAX_PACKET_LENGTH; lia).
  assert (Hb : is_bytes [0xAB; 0xCD]).
  { repeat (apply Forall_cons_2; [lia|]). apply Forall_nil_2. }
  assert (Hl : lenZ [0xAB; 0xCD] <= PTRDIFF_MAX) by (vm_compute; discriminate).
  assert (Hc : 3 <= lenZ (replicate 8 7) <= PTRDIFF_MAX)
    by (vm_compute; split; discriminate).
  split; [exact HM|]. split; [exact Hb|]. split; [exact Hl|]. split; [exact Hc|].
  exact (gps_hexdump_lowercase 9216 (replicate 8 7) [0xAB; 0xCD] HM Hb Hl Hc).
Defined.

(** X4.  With a capacity below 3 and a source that is not empty,
    [gps_hexdump] runs past its destination: the bound
    [scbuflen - 3] wraps around, and the first store outside the
    destination is at the index [scbuflen]. *)
Theorem gps_hexdump_small_capacity (M : Z) (scbuf b : list Z) (n : Z) :
  valid_MAX_PACKET_LENGTH M ->
  lenZ scbuf < 3 ->
  1 <= n <= lenZ b ->
  lenZ b <= PTRDIFF_MAX ->
  gps_hexdump M scbuf (lenZ scbuf) (Some b) n = Fault (BadStore (lenZ scbuf)).
Proof.
  intros HM Hc Hn Hlen. unfold valid_MAX_PACKET_LENGTH in HM.
  unfold PTRDIFF_MAX in Hlen. unfold gps_hexdump.
  destruct (Z.eqb_spec n 0) as [|_]; [lia|].
  rewrite (size_t_small M) by lia.
  replace (if n >? M then M else n) with (Z.min n M)
    by (rewrite Z.gtb_ltb; destruct (Z.ltb_spec M n); lia).
  rewrite size_t_small by lia.
  destruct (Z.to_nat (Z.min n M)) as [|k] eqn:Ek; [lia|].
  destruct b as [|b0 b]; [unfold lenZ in Hn; simpl in Hn; lia|].
  destruct scbuf as [|x [|y [|z t]]].
  - reflexivity.
  - reflexivity.
  - destruct k as [|k]; [reflexivity|].
    destruct b as [|b1 b]; [unfold lenZ in Hn; simpl in Hn; lia|].
    reflexivity.
  - unfold lenZ in Hc. simpl in Hc. lia.
Qed.

Lemma gps_hexdump_small_capacity_witness :
  valid_MAX_PACKET_LENGTH 9216
  /\ lenZ [7; 7] < 3
  /\ 1 <= 2 <= lenZ [0xAB; 0xCD]
  /\ lenZ [0xAB; 0xCD] <= PTRDIFF_MAX
  /\ gps_hexdump 9216 [7; 7] (lenZ [7; 7]) (Some [0xAB; 0xCD]) 2
     = Fault (BadStore (lenZ [7; 7])).
Proof.
  assert (HM : valid_MAX_PACKET_LENGTH 9216) by (unfold valid_MAX_PACKET_LENGTH; lia).
  assert (Hc : lenZ [7; 7] < 3) by reflexivity.
  assert (Hn : 1 <= 2 <= lenZ [0xAB; 0xCD]) by (vm_compute; split; discriminate).
  assert (Hl : lenZ [0xAB; 0xCD] <= PTRDIFF_MAX) by (vm_compute; discriminate).
  split; [exact HM|]. split; [exact Hc|]. split; [exact Hn|]. split; [exact Hl|].
  exact (gps_hexdump_small_capacity 9216 [7; 7] [0xAB; 0xCD] 2 HM Hc Hn Hl).
Defined.

(** ** [gps_hexpack] *)

Lemma pair_ok_ext s1 s2 k :
  (forall i, (i < 2 * S k)%nat -> same_digit (char_at s1 i) (char_at s2 i)) ->
  pair_ok s1 k = pair_ok s2 k
  /\ (pair_ok s1 k = true -> pair_value s1 k = pair_value s2 k).
Proof.
  intros Hsame.
  destruct (Hsame (2 * k)%nat ltac:(lia)) as [Hx0 Hv0].
  destruct (Hsame (2 * k + 1)%nat ltac:(lia)) as [Hx1 Hv1].
  unfold pair_ok, pair_value. rewrite <- Hx0, <- Hx1. split; [reflexivity|].
  intros Hok. apply andb_true_iff in Hok as [H0 H1].
  rewrite (Hv0 H0), (Hv1 H1). reflexivity.
Qed.

Lemma good_pairs_ext s1 s2 : forall n k,
  (forall i, (i < 2 * (k + n))%nat -> same_digit (char_at s1 i) (char_at s2 i)) ->
  good_pairs n s1 k = good_pairs n s2 k.
Proof.
  induction n as [|n IH]; intros k Hsame; [reflexivity|].
  cbn [good_pairs].
  destruct (pair_ok_ext s1 s2 k) as [<- _]; [intros i Hi; apply Hsame; lia|].
  destruct (pair_ok s1 k); [|reflexivity].
  f_equal. apply IH. intros i Hi. apply Hsame. lia.
Qed.

Lemma decoded_ext s1 s2 m :
  (forall i, (i < 2 * m)%nat -> same_digit (char_at s1 i) (char_at s2 i)) ->
  (forall k, (k < m)%nat -> pair_ok s1 k = true) ->
  decoded s1 0 m = decoded s2 0 m.
Proof.
  intros Hsame Hok. unfold decoded. apply map_ext_in. intros k Hk.
  apply in_seq in Hk.
  destruct (pair_ok_ext s1 s2 k) as [_ Hv]; [intros i Hi; apply Hsame; lia|].
  apply Hv, Hok. lia.
Qed.

(** [gps_hexpack] gives the same result on two sources of as many pairs
    whose characters, up to the last pair, [hex2bin] cannot tell
    apart. *)
Lemma gps_hexpack_ext B s1 s2 dst :
  valid_BUFSIZ B ->
  is_bytes s1 ->
  is_bytes s2 ->
  lenZ dst <= PTRDIFF_MAX ->
  pairs B s1 = pairs B s2 ->
  (forall i : nat, Z.of_nat i < 2 * pairs B s1 ->
                   same_digit (char_at s1 i) (char_at s2 i)) ->
  gps_hexpack B s1 dst (lenZ dst) = gps_hexpack B s2 dst (lenZ dst).
Proof.
  intros HB H1 H2 Hcap Hp Hsame.
  rewrite !gps_hexpack_run by assumption. rewrite <- Hp.
  pose proof (pairs_range B s1 HB) as Hj.
  set (n := Z.to_nat (pairs B s1)) in *.
  assert (Hg : good_pairs n s1 0 = good_pairs n s2 0).
  { apply good_pairs_ext. intros i Hi. apply Hsame. unfold n in Hi. lia. }
  rewrite <- Hg.
  pose proof (good_pairs_le n s1 0) as Hle.
  assert (Hd : decoded s1 0 (good_pairs n s1 0) = decoded s2 0 (good_pairs n s1 0)).
  { apply decoded_ext.
    - intros i Hi. apply Hsame. unfold n in *. lia.
    - intros k Hk. apply (good_pairs_ok n s1 0 k Hk). }
  destruct (decide (pairs B s1 < 1 \/ lenZ dst < pairs B s1)); [reflexivity|].
  destruct (decide (good_pairs n s1 0 = n)) as [Hall|Hstop].
  - rewrite Hall in Hd. rewrite Hd. reflexivity.
  - rewrite Hd. reflexivity.
Qed.

Lemma same_digit_toupper c : same_digit c (toupper c).
Proof.
  unfold same_digit, toupper. eval_ch.
  destruct (Z.leb_spec 97 c), (Z.leb_spec c 122); cbn [andb];
    try (split; reflexivity).
  split.
  - destruct (isxdigit c) eqn:E1, (isxdigit (c - 32)) eqn:E2; try reflexivity.
    + apply isxdigit_true in E1. apply isxdigit_false in E2. lia.
    + apply isxdigit_false in E1. apply isxdigit_true in E2. lia.
  - intros E1. apply isxdigit_true in E1. unfold digit_value. eval_ch.
    destruct (Z.leb_spec 97 c), (Z.leb_spec c 102), (Z.leb_spec 97 (c - 32)),
      (Z.leb_spec (c - 32) 102), (Z.leb_spec 65 (c - 32)), (Z.leb_spec (c - 32) 70);
      cbn [andb]; lia.
Qed.

Lemma cstring_toupper s : cstring (toupper <$> s) = toupper <$> cstring s.
Proof.
  induction s as [|c s IH]; [reflexivity|].
  cbn [fmap list_fmap cstring].
  assert (Hz : (toupper c =? 0) = (c =? 0)).
  { unfold toupper. eval_ch.
    destruct (Z.leb_spec 97 c), (Z.leb_spec c 122); cbn [andb]; try reflexivity.
    destruct (Z.eqb_spec (c - 32) 0), (Z.eqb_spec c 0); try reflexivity; lia. }
  rewrite Hz. destruct (c =? 0); [reflexivity|].
  cbn [fmap list_fmap]. f_equal. exact IH.
Qed.

Lemma char_at_toupper s i : char_at (toupper <$> s) i = toupper (char_at s i).
Proof.
  unfold char_at. rewrite list_lookup_fmap.
  destruct (s !! i); reflexivity.
Qed.

Lemma toupper_byte c : 0 <= c < 256 -> 0 <= toupper c < 256.
Proof.
  intros Hc. unfold toupper. eval_ch.
  destruct (Z.leb_spec 97 c), (Z.leb_spec c 122); cbn [andb]; lia.
Qed.

(** X5.  [gps_hexpack] does not depend on the case of the hex digits:
    on the source with every letter in upper case it returns the same
    value and leaves the same bytes in the destination. *)
Theorem gps_hexpack_case_insensitive (B : Z) (src dst : list Z) :
  valid_BUFSIZ B ->
  is_bytes src ->
  lenZ dst <= PTRDIFF_MAX ->
  gps_hexpack B (toupper <$> src) dst (lenZ dst) = gps_hexpack B src dst (lenZ dst).
Proof.
  intros HB Hs Hcap. symmetry. apply gps_hexpack_ext; try assumption.
  - apply Forall_fmap. eapply Forall_impl; [exact Hs|].
    intros c Hc. apply toupper_byte, Hc.
  - unfold pairs. rewrite cstring_toupper. unfold lenZ.
    rewrite length_fmap. reflexivity.
  - intros i _. rewrite char_at_toupper. apply same_digit_toupper.
Qed.

Lemma gps_hexpack_case_insensitive_witness :
  valid_BUFSIZ 8192
  /\ is_bytes (bytes_of "1aBcdg")
  /\ lenZ (replicate 4 7) <= PTRDIFF_MAX
  /\ gps_hexpack 8192 (bytes_of "1ABCDG") (replicate 4 7) 4
     = gps_hexpack 8192 (bytes_of "1aBcdg") (replicate 4 7) 4.
Proof.
  assert (HB : valid_BUFSIZ 8192) by (unfold valid_BUFSIZ; lia).
  assert (Hs : is_bytes (bytes_of "1aBcdg")).
  { unfold bytes_of. cbn. repeat (apply Forall_cons_2; [lia|]). apply Forall_nil_2. }
  assert (Hc : lenZ (replicate 4 7) <= PTRDIFF_MAX) by (vm_compute; discriminate).
  split; [exact HB|]. split; [exact Hs|]. split; [exact Hc|].
  exact (gps_hexpack_case_insensitive 8192 (bytes_of "1aBcdg") (replicate 4 7) HB Hs Hc).
Defined.

Lemma char_at_app_l s t i : (i < length s)%nat -> char_at (s ++ t) i = char_at s i.
Proof. intros Hi. unfold char_at. rewrite lookup_app_l by exact Hi. reflexivity. Qed.

Lemma same_digit_refl c : same_digit c c.
Proof. split; reflexivity. Qed.

(** X6.  A source of odd length is decoded without its last character,
    whatever that character is: [gps_hexpack] on [s] followed by one
    more character does what it does on [s], for [s] of even length
    and free of NUL. *)
Theorem gps_hexpack_odd_tail (B : Z) (s dst : list Z) (c : Z) :
  valid_BUFSIZ B ->
  is_bytes s ->
  0 <= c < 256 ->
  Forall (fun x => x <> 0) s ->
  Nat.Even (length s) ->
  lenZ dst <= PTRDIFF_MAX ->
  gps_hexpack B (s ++ [c]) dst (lenZ dst) = gps_hexpack B s dst (lenZ dst).
Proof.
  intros HB Hs Hc Hnz [h Hh] Hcap.
  assert (Hls : lenZ (cstring s) = 2 * Z.of_nat h).
  { rewrite cstring_nonzero by exact Hnz. unfold lenZ. lia. }
  assert (Hlt : lenZ (cstring (s ++ [c])) = 2 * Z.of_nat h
                \/ lenZ (cstring (s ++ [c])) = 2 * Z.of_nat h + 1).
  { destruct (Z.eqb_spec c 0) as [->|Hc0].
    - left. rewrite cstring_app_nul by exact Hnz. unfold lenZ. lia.
    - right. rewrite cstring_nonzero.
      + unfold lenZ. rewrite length_app. simpl. lia.
      + apply Forall_app. split; [exact Hnz|].
        apply Forall_cons_2; [exact Hc0 | apply Forall_nil_2]. }
  assert (Hp : pairs B (s ++ [c]) = pairs B s).
  { unfold pairs. rewrite Hls. unfold valid_BUFSIZ in HB.
    destruct Hlt as [-> | ->]; [reflexivity|].
    destruct (Z.le_gt_cases B (2 * Z.of_nat h)) as [Hle|Hgt].
    - rewrite !Z.min_r by lia. reflexivity.
    - rewrite !Z.min_l by lia.
      rewrite (Z.mul_comm 2 (Z.of_nat h)).
      rewrite Z.div_mul by lia.
      symmetry. apply Z.div_unique with (r := 1); lia. }
  apply gps_hexpack_ext; try assumption.
  - apply Forall_app. split; [exact Hs|].
    apply Forall_cons_2; [exact Hc | apply Forall_nil_2].
  - intros i Hi. rewrite char_at_app_l; [apply same_digit_refl|].
    rewrite Hp in Hi. unfold pairs in Hi. rewrite Hls in Hi.
    assert (Z.min (2 * Z.of_nat h) B / 2 <= Z.of_nat h).
    { apply Z.lt_succ_r. apply Z.div_lt_upper_bound; lia. }
    lia.
Qed.

Lemma gps_hexpack_odd_tail_witness :
  valid_BUFSIZ 8192
  /\ is_bytes (bytes_of "1234")
  /\ 0 <= ch "g" < 256
  /\ Forall (fun x => x <> 0) (bytes_of "1234")
  /\ Nat.Even (length (bytes_of "1234"))
  /\ lenZ (replicate 4 7) <= PTRDIFF_MAX
  /\ gps_hexpack 8192 (bytes_of "1234" ++ [ch "g"]) (replicate 4 7) 4
     = gps_hexpack 8192 (bytes_of "1234") (replicate 4 7) 4.
Proof.
  assert (HB : valid_BUFSIZ 8192) by (unfold valid_BUFSIZ; lia).
  assert (Hs : is_bytes (bytes_of "1234")).
  { unfold bytes_of. cbn. repeat (apply Forall_cons_2; [lia|]). apply Forall_nil_2. }
  assert (Hc : 0 <= ch "g" < 256) by (vm_compute; split; [discriminate | reflexivity]).
  assert (Hnz : Forall (fun x => x <> 0) (bytes_of "1234")).
  { unfold bytes_of. cbn. repeat (apply Forall_cons_2; [lia|]). apply Forall_nil_2. }
  assert (He : Nat.Even (length (bytes_of "1234"))) by (exists 2%nat; reflexivity).
  assert (Hd : lenZ (replicate 4 7) <= PTRDIFF_MAX) by (vm_compute; discriminate).
  split; [exact HB|]. split; [exact Hs|]. split; [exact Hc|]. split; [exact Hnz|].
  split; [exact He|]. split; [exact Hd|].
  exact (gps_hexpack_odd_tail 8192 (bytes_of "1234") (replicate 4 7) (ch "g")
           HB Hs Hc Hnz He Hd).
Defined.

(** ** [hex_escapes] *)

Lemma isxdigit_cases h :
  isxdigit h = true ->
  h = 48 \/ h = 49 \/ h = 50 \/ h = 51 \/ h = 52 \/ h = 53 \/ h = 54 \/ h = 55 \/ h = 56 \/ h = 57 \/ h = 65 \/ h = 66 \/ h = 67 \/ h = 68 \/ h = 69 \/ h = 70 \/ h = 97 \/ h = 98 \/ h = 99 \/ h = 100 \/ h = 101 \/ h = 102.
Proof. rewrite isxdigit_true. lia. Qed.

Lemma high_nibble_value h :
  isxdigit h = true -> switch h high_nibble_cases = Some (16 * digit_value h).
Proof. intros H. apply isxdigit_cases in H. each_xdigit H. Qed.

Lemma low_nibble_value h :
  isxdigit h = true -> switch h low_nibble_cases = Some (digit_value h).
Proof. intros H. apply isxdigit_cases in H. each_xdigit H. Qed.

(** One escape [\xHL] with two hex digits stores the byte they denote. *)
Lemma hex_escapes_loop_hex cooked h l rest :
  isxdigit h = true ->
  isxdigit l = true ->
  hex_escapes_loop cooked (hex_escape h l ++ rest)
  = hex_escapes_loop (cooked ++ [16 * digit_value h + digit_value l]) rest.
Proof.
  intros Hh Hl.
  change (hex_escape h l ++ rest) with (ch "\" :: ch "x" :: h :: l :: rest).
  rewrite hex_escapes_loop_x, (high_nibble_value h Hh), (low_nibble_value l Hl).
  apply digit_value_range in Hh, Hl.
  unfold uchar. rewrite Z.mod_small by lia. reflexivity.
Qed.

(** X7.  A string of escapes [\xHL], the digits in either case, decodes
    to the bytes the pairs of digits denote, and [hex_escapes] returns
    their number. *)
Theorem hex_escapes_hex_pairs (ds : list (Z * Z)) :
  Forall (fun d => isxdigit d.1 = true /\ isxdigit d.2 = true) ds ->
  hex_escapes (flat_map (fun d => hex_escape d.1 d.2) ds)
  = (lenZ (map (fun d => 16 * digit_value d.1 + digit_value d.2) ds),
     map (fun d => 16 * digit_value d.1 + digit_value d.2) ds).
Proof.
  intros Hds. unfold hex_escapes.
  enough (H : forall cooked,
             hex_escapes_loop cooked (flat_map (fun d => hex_escape d.1 d.2) ds)
             = (lenZ (cooked ++ map (fun d => 16 * digit_value d.1 + digit_value d.2) ds),
                cooked ++ map (fun d => 16 * digit_value d.1 + digit_value d.2) ds))
    by exact (H []).
  induction Hds as [|[h l] ds [Hh Hl] Hds IH]; intros cooked.
  - cbn. rewrite app_nil_r. reflexivity.
  - cbn [flat_map map fst snd].
    rewrite hex_escapes_loop_hex by assumption.
    rewrite IH, <- app_assoc. reflexivity.
Qed.

Lemma hex_escapes_hex_pairs_witness :
  Forall (fun d => isxdigit d.1 = true /\ isxdigit d.2 = true)
    [(ch "4", ch "1"); (ch "f", ch "F"); (ch "0", ch "a")]
  /\ hex_escapes (bytes_of "\x41\xfF\x0a") = (3, [0x41; 0xff; 0x0a]).
Proof.
  assert (Hds : Forall (fun d => isxdigit d.1 = true /\ isxdigit d.2 = true)
                  [(ch "4", ch "1"); (ch "f", ch "F"); (ch "0", ch "a")]).
  { repeat (apply Forall_cons_2; [split; reflexivity|]). apply Forall_nil_2. }
  split; [exact Hds|].
  exact (hex_escapes_hex_pairs [(ch "4", ch "1"); (ch "f", ch "F"); (ch "0", ch "a")] Hds).
Defined.

(** What follows the first NUL of the raw string is not read. *)
Lemma hex_escapes_loop_cstring n : forall raw cooked,
  (length raw <= n)%nat ->
  hex_escapes_loop cooked raw = hex_escapes_loop cooked (cstring raw).
Proof.
  induction n as [|n IH]; intros raw cooked Hlen.
  - destruct raw; [reflexivity | simpl in Hlen; lia].
  - destruct raw as [|c raw1]; [reflexivity|].
    cbn [hex_escapes_loop cstring length] in *.
    destruct (Z.eqb_spec c 0) as [|Hc]; [reflexivity|].
    cbn [hex_escapes_loop]. apply Z.eqb_neq in Hc. rewrite Hc.
    destruct (negb (c =? ch "\")); [apply IH; lia|].
    destruct raw1 as [|e raw2]; [reflexivity|].
    cbn [hex_escapes_loop cstring length] in *.
    destruct (Z.eqb_spec e 0) as [->|He]; [reflexivity|].
    destruct (e =? ch "x").
    + destruct raw2 as [|h raw3]; [reflexivity|].
      cbn [hex_escapes_loop cstring length] in *.
      destruct (Z.eqb_spec h 0) as [->|Hh]; [reflexivity|].
      destruct (switch h high_nibble_cases) as [hi|]; [|reflexivity].
      destruct raw3 as [|l raw4]; [reflexivity|].
      cbn [hex_escapes_loop cstring length] in *.
      destruct (Z.eqb_spec l 0) as [->|Hl]; [reflexivity|].
      destruct (switch l low_nibble_cases) as [lo|]; [|reflexivity].
      apply IH. lia.
    + destruct (switch e escape_cases) as [b|]; [|reflexivity].
      apply IH. lia.
Qed.

(** X8.  [hex_escapes] reads the raw string up to its first NUL only:
    the value returned and the cooked bytes are those for the text
    before the NUL, whatever the memory holds behind it, also when the
    NUL comes in the middle of an escape. *)
Theorem hex_escapes_stops_at_nul (raw : list Z) :
  hex_escapes raw = hex_escapes (cstring raw).
Proof. apply (hex_escapes_loop_cstring (length raw)). lia. Qed.

Lemma hex_escapes_loop_count n : forall raw cooked,
  (length raw <= n)%nat ->
  ((hex_escapes_loop cooked raw).1 = lenZ (hex_escapes_loop cooked raw).2
   \/ (hex_escapes_loop cooked raw).1 = -1
   \/ (hex_escapes_loop cooked raw).1 = -2
   \/ (hex_escapes_loop cooked raw).1 = -3)
  /\ lenZ cooked <= lenZ (hex_escapes_loop cooked raw).2 <= lenZ cooked + lenZ raw.
Proof.
  induction n as [|n IH]; intros raw cooked Hlen.
  - destruct raw; [|simpl in Hlen; lia].
    cbn. change (lenZ []) with 0. split; [left; reflexivity | lia].
  - pose proof (lenZ_nonneg raw) as Hraw.
    assert (Hend : forall r, r = -1 \/ r = -2 \/ r = -3 \/ r = lenZ cooked ->
              ((r, cooked).1 = lenZ (r, cooked).2 \/ (r, cooked).1 = -1
               \/ (r, cooked).1 = -2 \/ (r, cooked).1 = -3)
              /\ lenZ cooked <= lenZ (r, cooked).2 <= lenZ cooked + lenZ raw).
    { intros r Hr. cbn [fst snd]. split; [tauto | lia]. }
    assert (Hstep : forall b rest, (length rest < length raw)%nat ->
              ((hex_escapes_loop (cooked ++ [b]) rest).1
                 = lenZ (hex_escapes_loop (cooked ++ [b]) rest).2
               \/ (hex_escapes_loop (cooked ++ [b]) rest).1 = -1
               \/ (hex_escapes_loop (cooked ++ [b]) rest).1 = -2
               \/ (hex_escapes_loop (cooked ++ [b]) rest).1 = -3)
              /\ lenZ cooked <= lenZ (hex_escapes_loop (cooked ++ [b]) rest).2
                 <= lenZ cooked + lenZ raw).
    { intros b rest Hrest.
      destruct (IH rest (cooked ++ [b]) ltac:(lia)) as [Hcode Hbound].
      split; [exact Hcode|]. rewrite lenZ_app in Hbound.
      change (lenZ [b]) with 1 in Hbound. unfold lenZ in *. lia. }
    destruct raw as [|c raw1]; [apply Hend; tauto|].
    cbn [hex_escapes_loop].
    destruct (c =? 0); [apply Hend; tauto|].
    destruct (negb (c =? ch "\")); [apply Hstep; simpl; lia|].
    destruct raw1 as [|e raw2]; [apply Hend; tauto|].
    destruct (e =? ch "x").
    + destruct raw2 as [|h raw3]; [apply Hend; tauto|].
      destruct (switch h high_nibble_cases) as [hi|]; [|apply Hend; tauto].
      destruct raw3 as [|l raw4]; [apply Hend; tauto|].
      destruct (switch l low_nibble_cases) as [lo|]; [|apply Hend; tauto].
      apply Hstep. simpl. lia.
    + destruct (switch e escape_cases) as [b|]; [|apply Hend; tauto].
      apply Hstep. simpl. lia.
Qed.

(** X9.  [hex_escapes] returns the number of bytes it has stored, or
    one of -1, -2 and -3; and it never stores more bytes than the raw
    string has characters before its NUL. *)
Theorem hex_escapes_count (raw : list Z) :
  ((hex_escapes raw).1 = lenZ (hex_escapes raw).2
   \/ (hex_escapes raw).1 = -1 \/ (hex_escapes raw).1 = -2 \/ (hex_escapes raw).1 = -3)
  /\ lenZ (hex_escapes raw).2 <= lenZ (cstring raw).
Proof.
  assert (Hcut : hex_escapes raw = hex_escapes (cstring raw))
    by (apply (hex_escapes_loop_cstring (length raw)); lia).
  rewrite Hcut. unfold hex_escapes.
  destruct (hex_escapes_loop_count (length (cstring raw)) (cstring raw) [] ltac:(lia))
    as [Hcode Hbound].
  change (lenZ []) with 0 in Hbound. split; [exact Hcode | lia].
Qed.

(** ** [gps_visibilize] and [hex_escapes] *)

(** With room for four characters for each byte, nothing is cut. *)
Lemma visible_text_all c : forall src next,
  0 <= next ->
  next + 4 * lenZ src + 3 <= c ->
  visible_text c next src = flat_map visible src.
Proof.
  induction src as [|b src IH]; intros next Hnext Hroom; [reflexivity|].
  rewrite lenZ_cons in Hroom. pose proof (lenZ_nonneg src) as Hsrc.
  cbn [visible_text flat_map].
  destruct (Z.ltb_spec (next + 6) c) as [_|Hfull]; [|lia].
  assert (Hl : 1 <= lenZ (visible b) <= 4)
    by (unfold lenZ; rewrite length_visible; destruct (isprint b); lia).
  rewrite IH by lia. reflexivity.
Qed.

Lemma visible_text_short c : forall src next,
  lenZ (visible_text c next src) <= 4 * lenZ src.
Proof.
  induction src as [|b src IH]; intros next.
  - change (lenZ (visible_text c next [])) with 0. change (lenZ []) with 0. lia.
  - rewrite lenZ_cons. cbn [visible_text].
    destruct (next + 6 <? c).
    + rewrite lenZ_app.
      assert (Hl : 1 <= lenZ (visible b) <= 4)
        by (unfold lenZ; rewrite length_visible; destruct (isprint b); lia).
      specialize (IH (next + lenZ (visible b))). lia.
    + change (lenZ []) with 0. pose proof (lenZ_nonneg src). lia.
Qed.

Lemma visible_printable b :
  0 <= b < 256 -> Forall (fun c => isprint c = true) (visible b).
Proof.
  intros Hb. unfold visible. destruct (isprint b) eqn:E.
  - apply Forall_cons_2; [exact E | apply Forall_nil_2].
  - pose proof (byte_forall
      (fun b => isprint (hexchar_at (b / 16)) && isprint (hexchar_at (b mod 16)))
      eq_refl b Hb) as H.
    apply andb_true_iff in H as [H1 H2].
    cbn. repeat (apply Forall_cons_2; [first [assumption | reflexivity]|]).
    apply Forall_nil_2.
Qed.

Lemma visible_text_printable c : forall src next,
  is_bytes src -> Forall (fun x => isprint x = true) (visible_text c next src).
Proof.
  induction src as [|b src IH]; intros next Hb; [constructor|].
  apply Forall_cons in Hb as [Hb Hsrc]. cbn [visible_text].
  destruct (next + 6 <? c); [|constructor].
  apply Forall_app. split; [apply visible_printable, Hb | apply IH, Hsrc].
Qed.

(** X10.  The text [gps_visibilize] stores is printable: each of its
    characters passes [isprint].  It is at most four characters for
    each source byte, and shorter than the capacity. *)
Theorem gps_visibilize_printable (outbuf inbuf : list Z) (inlen : Z) :
  1 <= lenZ outbuf <= PTRDIFF_MAX ->
  is_bytes inbuf ->
  0 <= inlen <= lenZ inbuf ->
  exists outbuf',
    gps_visibilize outbuf (lenZ outbuf) inbuf inlen = Done outbuf'
    /\ Forall (fun c => isprint c = true) (cstring outbuf')
    /\ lenZ (cstring outbuf') <= 4 * inlen
    /\ lenZ (cstring outbuf') < lenZ outbuf.
Proof.
  intros Hc Hb Hin. rewrite gps_visibilize_run by assumption.
  set (src := take (Z.to_nat inlen) inbuf).
  assert (Hsrc : lenZ src = inlen)
    by (unfold src, lenZ in *; rewrite length_take; lia).
  eexists. split; [reflexivity|].
  rewrite cstring_app_nul by (apply visible_text_nonzero, Forall_take, Hb).
  split; [apply visible_text_printable, Forall_take, Hb|]. split.
  - rewrite <- Hsrc. apply visible_text_short.
  - pose proof (visible_text_bound (lenZ outbuf) src 0 ltac:(lia)). lia.
Qed.

Lemma gps_visibilize_printable_witness :
  1 <= lenZ (replicate 12 7) <= PTRDIFF_MAX
  /\ is_bytes [0x00; 0x41; 0x09; 0xff]
  /\ 0 <= 4 <= lenZ [0x00; 0x41; 0x09; 0xff]
  /\ exists outbuf',
      gps_visibilize (replicate 12 7) (lenZ (replicate 12 7)) [0x00; 0x41; 0x09; 0xff] 4
      = Done outbuf'
      /\ Forall (fun c => isprint c = true) (cstring outbuf')
      /\ lenZ (cstring outbuf') <= 4 * 4
      /\ lenZ (cstring outbuf') < lenZ (replicate 12 7).
Proof.
  assert (Hc : 1 <= lenZ (replicate 12 7) <= PTRDIFF_MAX)
    by (vm_compute; split; discriminate).
  assert (Hb : is_bytes [0x00; 0x41; 0x09; 0xff]).
  { repeat (apply Forall_cons_2; [lia|]). apply Forall_nil_2. }
  assert (Hin : 0 <= 4 <= lenZ [0x00; 0x41; 0x09; 0xff])
    by (vm_compute; split; discriminate).
  split; [exact Hc|]. split; [exact Hb|]. split; [exact Hin|].
  exact (gps_visibilize_printable (replicate 12 7) [0x00; 0x41; 0x09; 0xff] 4 Hc Hb Hin).
Defined.

(** X11.  A capacity of four bytes for each source byte and three more
    is enough: then [gps_visibilize] renders the whole source, nothing
    is cut. *)
Theorem gps_visibilize_complete (outbuf inbuf : list Z) (inlen : Z) :
  is_bytes inbuf ->
  0 <= inlen <= lenZ inbuf ->
  4 * inlen + 3 <= lenZ outbuf <= PTRDIFF_MAX ->
  exists outbuf',
    gps_visibilize outbuf (lenZ outbuf) inbuf inlen = Done outbuf'
    /\ cstring outbuf' = flat_map visible (take (Z.to_nat inlen) inbuf).
Proof.
  intros Hb Hin Hc. rewrite gps_visibilize_run by (assumption || lia).
  set (src := take (Z.to_nat inlen) inbuf).
  assert (Hsrc : lenZ src = inlen)
    by (unfold src, lenZ in *; rewrite length_take; lia).
  eexists. split; [reflexivity|].
  rewrite cstring_app_nul by (apply visible_text_nonzero, Forall_take, Hb).
  apply visible_text_all; lia.
Qed.

Lemma gps_visibilize_complete_witness :
  is_bytes [0x00; 0x41; 0xff]
  /\ 0 <= 3 <= lenZ [0x00; 0x41; 0xff]
  /\ 4 * 3 + 3 <= lenZ (replicate 15 7) <= PTRDIFF_MAX
  /\ exists outbuf',
      gps_visibilize (replicate 15 7) (lenZ (replicate 15 7)) [0x00; 0x41; 0xff] 3
      = Done outbuf'
      /\ cstring outbuf' = bytes_of "\x00A\xff".
Proof.
  assert (Hb : is_bytes [0x00; 0x41; 0xff]).
  { repeat (apply Forall_cons_2; [lia|]). apply Forall_nil_2. }
  assert (Hin : 0 <= 3 <= lenZ [0x00; 0x41; 0xff]) by (vm_compute; split; discriminate).
  assert (Hc : 4 * 3 + 3 <= lenZ (replicate 15 7) <= PTRDIFF_MAX)
    by (vm_compute; split; discriminate).
  split; [exact Hb|]. split; [exact Hin|]. split; [exact Hc|].
  exact (gps_visibilize_complete (replicate 15 7) [0x00; 0x41; 0xff] 3 Hb Hin Hc).
Defined.

(** [hex_escapes] reads what [gps_visibilize] stores for one byte, the
    backslash apart, as that byte. *)
Lemma hex_escapes_loop_visible cooked b rest :
  0 <= b < 256 ->
  b <> ch "\" ->
  hex_escapes_loop cooked (visible b ++ rest) = hex_escapes_loop (cooked ++ [b]) rest.
Proof.
  intros Hb Hbs. unfold visible. destruct (isprint b) eqn:E.
  - cbn [app hex_escapes_loop].
    unfold isprint in E. apply andb_true_iff in E as [E _]. apply Z.leb_le in E.
    destruct (Z.eqb_spec b 0) as [|_]; [lia|].
    destruct (Z.eqb_spec b (ch "\")) as [|_]; [contradiction|]. reflexivity.
  - destruct (hexchar_pair_byte b Hb) as (H1 & H2 & H3 & _).
    change (bytes_of "\x" ++ fmt_02x b)
      with (hex_escape (hexchar_at (b / 16)) (hexchar_at (b mod 16))).
    rewrite hex_escapes_loop_hex by assumption. rewrite H3. reflexivity.
Qed.

Lemma hex_escapes_loop_visible_text rest : forall src cooked,
  is_bytes src ->
  Forall (fun b => b <> ch "\") src ->
  hex_escapes_loop cooked (flat_map visible src ++ rest)
  = hex_escapes_loop (cooked ++ src) rest.
Proof.
  induction src as [|b src IH]; intros cooked Hb Hbs.
  - cbn. rewrite app_nil_r. reflexivity.
  - apply Forall_cons in Hb as [Hb Hsrc]. apply Forall_cons in Hbs as [Hbs Hrest].
    cbn [flat_map]. rewrite <- app_assoc.
    rewrite hex_escapes_loop_visible by assumption.
    rewrite IH by assumption. rewrite <- app_assoc. reflexivity.
Qed.

(** X12.  [hex_escapes] undoes [gps_visibilize] on a source that holds
    no backslash: with room for the whole text, decoding the string
    [gps_visibilize] stores returns the length of the source and gives
    its bytes back. *)
Theorem visibilize_hex_escapes_roundtrip (outbuf src : list Z) :
  is_bytes src ->
  Forall (fun b => b <> ch "\") src ->
  4 * lenZ src + 3 <= lenZ outbuf <= PTRDIFF_MAX ->
  exists outbuf',
    gps_visibilize outbuf (lenZ outbuf) src (lenZ src) = Done outbuf'
    /\ hex_escapes outbuf' = (lenZ src, src).
Proof.
  intros Hb Hbs Hc. pose proof (lenZ_nonneg src) as Hsrc.
  rewrite gps_visibilize_run by (assumption || lia).
  replace (Z.to_nat (lenZ src)) with (length src) by (unfold lenZ; lia).
  rewrite firstn_all. rewrite visible_text_all by lia.
  eexists. split; [reflexivity|].
  unfold hex_escapes. rewrite hex_escapes_loop_visible_text by assumption.
  reflexivity.
Qed.

Lemma visibilize_hex_escapes_roundtrip_witness :
  is_bytes [0x00; 0x41; 0x0a; 0xff]
  /\ Forall (fun b => b <> ch "\") [0x00; 0x41; 0x0a; 0xff]
  /\ 4 * lenZ [0x00; 0x41; 0x0a; 0xff] + 3 <= lenZ (replicate 19 7) <= PTRDIFF_MAX
  /\ exists outbuf',
      gps_visibilize (replicate 19 7) (lenZ (replicate 19 7))
        [0x00; 0x41; 0x0a; 0xff] (lenZ [0x00; 0x41; 0x0a; 0xff]) = Done outbuf'
      /\ hex_escapes outbuf' = (4, [0x00; 0x41; 0x0a; 0xff]).
Proof.
  assert (Hb : is_bytes [0x00; 0x41; 0x0a; 0xff]).
  { repeat (apply Forall_cons_2; [lia|]). apply Forall_nil_2. }
  assert (Hbs : Forall (fun b => b <> ch "\") [0x00; 0x41; 0x0a; 0xff]).
  { repeat (apply Forall_cons_2; [discriminate|]). apply Forall_nil_2. }
  assert (Hc : 4 * lenZ [0x00; 0x41; 0x0a; 0xff] + 3 <= lenZ (replicate 19 7)
               <= PTRDIFF_MAX) by (vm_compute; split; discriminate).
  split; [exact Hb|]. split; [exact Hbs|]. split; [exact Hc|].
  exact (visibilize_hex_escapes_roundtrip (replicate 19 7) [0x00; 0x41; 0x0a; 0xff]
           Hb Hbs Hc).
Defined.

(** X13.  The backslash is where the round trip ends: [gps_visibilize]
    copies it as it is, and on the text stored for a source that ends
    in a backslash [hex_escapes] fails with -3, the bytes before it
    being decoded. *)
Theorem visibilize_hex_escapes_backslash (outbuf pre : list Z) :
  is_bytes pre ->
  Forall (fun b => b <> ch "\") pre ->
  4 * lenZ (pre ++ [ch "\"]) + 3 <= lenZ outbuf <= PTRDIFF_MAX ->
  exists outbuf',
    gps_visibilize outbuf (lenZ outbuf) (pre ++ [ch "\"]) (lenZ (pre ++ [ch "\"]))
    = Done outbuf'
    /\ hex_escapes outbuf' = (-3, pre).
Proof.
  intros Hb Hbs Hc. set (src := pre ++ [ch "\"]) in *.
  pose proof (lenZ_nonneg src) as Hsrc.
  assert (Hsb : is_bytes src).
  { apply Forall_app. split; [exact Hb|].
    apply Forall_cons_2; [vm_compute; split; [discriminate | reflexivity]
                          | apply Forall_nil_2]. }
  rewrite gps_visibilize_run by (assumption || lia).
  replace (Z.to_nat (lenZ src)) with (length src) by (unfold lenZ; lia).
  rewrite firstn_all. rewrite visible_text_all by lia.
  eexists. split; [reflexivity|].
  unfold src. rewrite flat_map_app, <- app_assoc.
  unfold hex_escapes. rewrite hex_escapes_loop_visible_text by assumption.
  reflexivity.
Qed.

Lemma visibilize_hex_escapes_backslash_witness :
  is_bytes (bytes_of "C:")
  /\ Forall (fun b => b <> ch "\") (bytes_of "C:")
  /\ 4 * lenZ (bytes_of "C:" ++ [ch "\"]) + 3 <= lenZ (replicate 15 7) <= PTRDIFF_MAX
  /\ exists outbuf',
      gps_visibilize (replicate 15 7) (lenZ (replicate 15 7))
        (bytes_of "C:" ++ [ch "\"]) (lenZ (bytes_of "C:" ++ [ch "\"])) = Done outbuf'
      /\ hex_escapes outbuf' = (-3, bytes_of "C:").
Proof.
  assert (Hb : is_bytes (bytes_of "C:")).
  { unfold bytes_of. cbn. repeat (apply Forall_cons_2; [lia|]). apply Forall_nil_2. }
  assert (Hbs : Forall (fun b => b <> ch "\") (bytes_of "C:")).
  { unfold bytes_of. cbn. repeat (apply Forall_cons_2; [discriminate|]).
    apply Forall_nil_2. }
  assert (Hc : 4 * lenZ (bytes_of "C:" ++ [ch "\"]) + 3 <= lenZ (replicate 15 7)
               <= PTRDIFF_MAX) by (vm_compute; split; discriminate).
  split; [exact Hb|]. split; [exact Hbs|]. split; [exact Hc|].
  exact (visibilize_hex_escapes_backslash (replicate 15 7) (bytes_of "C:") Hb Hbs Hc).
Defined.

(** ** [gps_hexdump] and [gps_hexpack] *)

(** X14.  Decoding a dump that the capacity has cut gives a prefix of
    the source: for a source that is not empty and a capacity of at
    least 4, [gps_hexpack] of the string [gps_hexdump] stores succeeds
    and leaves the first [j] bytes of the source, followed by zeros,
    where [j] is at least 1. *)
Theorem hexdump_hexpack_prefix (M B : Z) (b scbuf dst : list Z) :
  valid_MAX_PACKET_LENGTH M ->
  valid_BUFSIZ B ->
  is_bytes b ->
  is_bytes scbuf ->
  0 < lenZ b <= PTRDIFF_MAX ->
  4 <= lenZ scbuf <= PTRDIFF_MAX ->
  lenZ b <= lenZ dst <= PTRDIFF_MAX ->
  exists scbuf' j,
    gps_hexdump M scbuf (lenZ scbuf) (Some b) (lenZ b) = Done scbuf'
    /\ j = Z.min (2 * Z.of_nat (encoded_bytes M (lenZ scbuf) b)) B / 2
    /\ 1 <= j <= lenZ b
    /\ gps_hexpack B scbuf' dst (lenZ dst)
       = Done (j, take (Z.to_nat j) b ++ replicate (length dst - Z.to_nat j) 0).
Proof.
  intros HM HB Hb Hsc Hlen Hc Hd.
  pose proof HB as HB'. unfold valid_BUFSIZ in HB'.
  pose proof HM as HM'. unfold valid_MAX_PACKET_LENGTH in HM'.
  rewrite gps_hexdump_run by (assumption || lia).
  pose proof (encoded_bytes_le M (lenZ scbuf) b) as Hm.
  assert (Hm1 : (1 <= encoded_bytes M (lenZ scbuf) b)%nat).
  { unfold encoded_bytes, pairs_that_fit. rewrite Z.sub_0_r.
    assert (1 <= (lenZ scbuf - 2) / 2) by (apply Z.div_le_lower_bound; lia).
    lia. }
  set (m := encoded_bytes M (lenZ scbuf) b) in *.
  assert (Hlm : lenZ (take m b) = Z.of_nat m)
    by (unfold lenZ; rewrite length_take; lia).
  set (j := Z.min (2 * Z.of_nat m) B / 2).
  assert (Hj : 1 <= j <= Z.of_nat m).
  { unfold j. split.
    - apply Z.div_le_lower_bound; lia.
    - apply Z.lt_succ_r. apply Z.div_lt_upper_bound; lia. }
  eexists _, j. split; [reflexivity|]. split; [reflexivity|].
  split; [unfold lenZ in *; lia|].
  rewrite gps_hexpack_hex_text;
    [| assumption | apply Forall_take, Hb | apply Forall_drop, Hsc | lia
     | rewrite Hlm; fold j; unfold lenZ in *; lia].
  rewrite Hlm. fold j. rewrite take_take.
  replace (Z.to_nat j `min` m)%nat with (Z.to_nat j) by lia. reflexivity.
Qed.

Lemma hexdump_hexpack_prefix_witness :
  valid_MAX_PACKET_LENGTH 9216
  /\ valid_BUFSIZ 8192
  /\ is_bytes [0x12; 0xab; 0xcd]
  /\ is_bytes (replicate 7 7)
  /\ 0 < lenZ [0x12; 0xab; 0xcd] <= PTRDIFF_MAX
  /\ 4 <= lenZ (replicate 7 7) <= PTRDIFF_MAX
  /\ lenZ [0x12; 0xab; 0xcd] <= lenZ (replicate 3 7) <= PTRDIFF_MAX
  /\ exists scbuf' j,
      gps_hexdump 9216 (replicate 7 7) (lenZ (replicate 7 7))
        (Some [0x12; 0xab; 0xcd]) (lenZ [0x12; 0xab; 0xcd]) = Done scbuf'
      /\ j = 2
      /\ 1 <= j <= lenZ [0x12; 0xab; 0xcd]
      /\ gps_hexpack 8192 scbuf' (replicate 3 7) (lenZ (replicate 3 7))
         = Done (j, take (Z.to_nat j) [0x12; 0xab; 0xcd]
                      ++ replicate (length (replicate 3 7) - Z.to_nat j) 0).
Proof.
  assert (HM : valid_MAX_PACKET_LENGTH 9216) by (unfold valid_MAX_PACKET_LENGTH; lia).
  assert (HB : valid_BUFSIZ 8192) by (unfold valid_BUFSIZ; lia).
  assert (Hb : is_bytes [0x12; 0xab; 0xcd]).
  { repeat (apply Forall_cons_2; [lia|]). apply Forall_nil_2. }
  assert (Hsc : is_bytes (replicate 7 7)) by (apply Forall_replicate; lia).
  assert (H1 : 0 < lenZ [0x12; 0xab; 0xcd] <= PTRDIFF_MAX)
    by (vm_compute; split; [reflexivity | discriminate]).
  assert (H2 : 4 <= lenZ (replicate 7 7) <= PTRDIFF_MAX)
    by (vm_compute; split; discriminate).
  assert (H3 : lenZ [0x12; 0xab; 0xcd] <= lenZ (replicate 3 7) <= PTRDIFF_MAX)
    by (vm_compute; split; discriminate).
  split; [exact HM|]. split; [exact HB|]. split; [exact Hb|]. split; [exact Hsc|].
  split; [exact H1|]. split; [exact H2|]. split; [exact H3|].
  exact (hexdump_hexpack_prefix 9216 8192 [0x12; 0xab; 0xcd] (replicate 7 7)
           (replicate 3 7) HM HB Hb Hsc H1 H2 H3).
Defined.

(** ** [hex_escapes]: plain text and concatenation *)

(** X15.  A raw string without NUL and without backslash is copied as
    it is, and [hex_escapes] returns its length. *)
Theorem hex_escapes_plain (raw : list Z) :
  Forall (fun c => c <> 0 /\ c <> ch "\") raw ->
  hex_escapes raw = (lenZ raw, raw).
Proof.
  intros Hraw. unfold hex_escapes.
  enough (H : forall cooked,
             hex_escapes_loop cooked raw = (lenZ (cooked ++ raw), cooked ++ raw))
    by exact (H []).
  induction Hraw as [|c raw [Hc Hbs] Hraw IH]; intros cooked.
  - cbn. rewrite app_nil_r. reflexivity.
  - cbn [hex_escapes_loop].
    destruct (Z.eqb_spec c 0) as [|_]; [contradiction|].
    destruct (Z.eqb_spec c (ch "\")) as [|_]; [contradiction|].
    cbn [negb]. rewrite IH, <- app_assoc. reflexivity.
Qed.

Lemma hex_escapes_plain_witness :
  Forall (fun c => c <> 0 /\ c <> ch "\") (bytes_of "$GPGGA,1")
  /\ hex_escapes (bytes_of "$GPGGA,1") = (8, bytes_of "$GPGGA,1").
Proof.
  assert (H : Forall (fun c => c <> 0 /\ c <> ch "\") (bytes_of "$GPGGA,1")).
  { unfold bytes_of. cbn.
    repeat (apply Forall_cons_2; [split; discriminate|]). apply Forall_nil_2. }
  split; [exact H|]. exact (hex_escapes_plain (bytes_of "$GPGGA,1") H).
Defined.

Lemma after_cooked_snoc cooked b r :
  after_cooked (cooked ++ [b]) r = after_cooked cooked (after_cooked [b] r).
Proof.
  destruct r as [n c]. unfold after_cooked. cbn [fst snd].
  rewrite lenZ_app, <- app_assoc. change (lenZ [b]) with 1.
  pose proof (lenZ_nonneg cooked).
  destruct (Z.leb_spec 0 n) as [Hn|Hn]; cbv iota.
  - destruct (Z.leb_spec 0 (1 + n)); [f_equal; lia | lia].
  - destruct (Z.leb_spec 0 n); [lia | reflexivity].
Qed.

Lemma after_cooked_end cooked r :
  r < 0 -> after_cooked cooked (r, []) = (r, cooked).
Proof.
  intros Hr. unfold after_cooked. cbn [fst snd]. rewrite app_nil_r.
  destruct (Z.leb_spec 0 r); [lia | reflexivity].
Qed.

Lemma after_cooked_nil cooked : after_cooked cooked (lenZ [], []) = (lenZ cooked, cooked).
Proof.
  unfold after_cooked. cbn [fst snd]. change (lenZ []) with 0.
  rewrite app_nil_r, Z.add_0_r. reflexivity.
Qed.

(** The loop entered with [cooked] already stored does what it does
    from the start, behind [cooked]. *)
Lemma hex_escapes_loop_after n : forall raw cooked,
  (length raw <= n)%nat ->
  hex_escapes_loop cooked raw = after_cooked cooked (hex_escapes_loop [] raw).
Proof.
  induction n as [|n IH]; intros raw cooked Hlen.
  - destruct raw; [|simpl in Hlen; lia]. symmetry. apply after_cooked_nil.
  - assert (Hstep : forall b rest, (length rest <= n)%nat ->
              hex_escapes_loop (cooked ++ [b]) rest
              = after_cooked cooked (hex_escapes_loop ([] ++ [b]) rest)).
    { intros b rest Hrest. rewrite (IH rest (cooked ++ [b]) Hrest).
      rewrite (IH rest ([] ++ [b]) Hrest). apply after_cooked_snoc. }
    destruct raw as [|c raw1]; [symmetry; apply after_cooked_nil|].
    cbn [hex_escapes_loop length] in *.
    destruct (c =? 0); [symmetry; apply after_cooked_nil|].
    destruct (negb (c =? ch "\")); [apply Hstep; lia|].
    destruct raw1 as [|e raw2]; [symmetry; apply after_cooked_end; lia|].
    cbn [length] in Hlen.
    destruct (e =? ch "x").
    + destruct raw2 as [|h raw3]; [symmetry; apply after_cooked_end; lia|].
      destruct (switch h high_nibble_cases) as [hi|];
        [|symmetry; apply after_cooked_end; lia].
      destruct raw3 as [|l raw4]; [symmetry; apply after_cooked_end; lia|].
      destruct (switch l low_nibble_cases) as [lo|];
        [|symmetry; apply after_cooked_end; lia].
      apply Hstep. cbn [length] in Hlen. lia.
    + destruct (switch e escape_cases) as [b|];
        [|symmetry; apply after_cooked_end; lia].
      apply Hstep. lia.
Qed.

(** X16.  Decoding is compatible with concatenation: when the raw
    string [pre] holds no NUL and decodes without error, the cooked
    bytes of [pre ++ suf] are those of [pre] followed by those of
    [suf]; the value returned is the sum of the two counts when [suf]
    decodes, and the error code of [suf] when it does not. *)
Theorem hex_escapes_concat (pre suf : list Z) :
  decodes pre ->
  hex_escapes (pre ++ suf)
  = (if 0 <=? (hex_escapes suf).1
     then (hex_escapes pre).1 + (hex_escapes suf).1
     else (hex_escapes suf).1,
     (hex_escapes pre).2 ++ (hex_escapes suf).2).
Proof.
  intros Hpre. rewrite hex_escapes_app by exact Hpre.
  rewrite (hex_escapes_loop_after (length suf)) by lia.
  fold (hex_escapes suf). unfold after_cooked.
  destruct Hpre as [_ Hok].
  destruct (hex_escapes_loop_count (length pre) pre [] ltac:(lia)) as [Hcode _].
  fold (hex_escapes pre) in Hcode.
  assert (Hn : (hex_escapes pre).1 = lenZ (hex_escapes pre).2) by lia.
  rewrite Hn. reflexivity.
Qed.

Lemma hex_escapes_concat_witness :
  decodes (bytes_of "a\n")
  /\ hex_escapes (bytes_of "a\n" ++ bytes_of "\x41b") = (4, [97; 10; 65; 98])
  /\ hex_escapes (bytes_of "a\n" ++ bytes_of "b\q") = (-3, [97; 10; 98]).
Proof.
  assert (Hd : decodes (bytes_of "a\n")).
  { split; [cbn; repeat (apply Forall_cons_2; [lia|]); apply Forall_nil_2
           | vm_compute; discriminate]. }
  split; [exact Hd|].
  split; [exact (hex_escapes_concat (bytes_of "a\n") (bytes_of "\x41b") Hd)
         | exact (hex_escapes_concat (bytes_of "a\n") (bytes_of "b\q") Hd)].
Defined.
